(** * Copilot Chat Extractor: the extraction and normalisation pipeline

    Shallow embedding of [src/src/chatExtractor.ts] (with the interfaces of
    [src/src/types.ts]).  JavaScript values are modelled by [jsval]; strings
    are Stdlib strings over ASCII; numbers are integers (no NaN, no
    fractions).  Code that can throw (a property read on [null], a method
    missing on a non-string) runs in the [result] monad; the database
    extractor threads a state (the [sessions] array it pushes to and the
    number of [Date.now()] calls made so far) through [ST]. *)

From Stdlib Require Import String Ascii List ZArith Bool Lia.
From Stdlib Require Import Sorting.Permutation Sorting.Sorted.
Import ListNotations.
Local Open Scope string_scope.
Local Open Scope Z_scope.

(** ** JavaScript values *)

Set Warnings "-register-all".

(** A value produced by [JSON.parse] (plus [undefined]).  Objects are field
    lists in insertion order with pairwise distinct keys. *)
Inductive jsval : Type :=
| JUndef
| JNull
| JBool (b : bool)
| JNum (n : Z)
| JStr (s : string)
| JArr (items : list jsval)
| JObj (fields : list (string * jsval)).

(** [Boolean(v)], i.e. what [!v], [a || b] and [filter(Boolean)] test. *)
Definition truthy (v : jsval) : bool :=
  match v with
  | JUndef | JNull => false
  | JBool b => b
  | JNum n => negb (n =? 0)
  | JStr s => negb (String.eqb s "")
  | JArr _ | JObj _ => true
  end.

(** [a || b] when evaluating [b] cannot throw. *)
Definition js_or (a b : jsval) : jsval := if truthy a then a else b.

(** [typeof v === 'object'] ([null] and arrays included). *)
Definition typeof_object (v : jsval) : bool :=
  match v with
  | JNull | JArr _ | JObj _ => true
  | _ => false
  end.

Definition is_string (v : jsval) : bool :=
  match v with JStr _ => true | _ => false end.

(** ** Exceptions *)

(** [FsError]: a failing [fs] call; [DbError]: a failing SQLite driver call. *)
Inductive exn : Type := TypeError | URIError | FsError | DbError.

Inductive result (A : Type) : Type :=
| Ok (a : A)
| Throw (e : exn).
Arguments Ok {A} a.
Arguments Throw {A} e.

Definition bind {A B} (m : result A) (f : A -> result B) : result B :=
  match m with
  | Ok a => f a
  | Throw e => Throw e
  end.

Notation "x <- m ;; k" := (bind m (fun x => k))
  (at level 61, m at next level, right associativity).

Fixpoint mapM {A B} (f : A -> result B) (l : list A) : result (list B) :=
  match l with
  | [] => Ok []
  | x :: r => y <- f x ;; ys <- mapM f r ;; Ok (y :: ys)
  end.

(** [a || b] where [b] is evaluated only when [a] is falsy. *)
Definition or_else (m : result jsval) (k : unit -> result jsval) : result jsval :=
  v <- m ;; if truthy v then Ok v else k tt.

(** ** Property access *)

Fixpoint assoc (k : string) (fs : list (string * jsval)) : option jsval :=
  match fs with
  | [] => None
  | (k', v) :: r => if String.eqb k k' then Some v else assoc k r
  end.

(** [v[k]] / [v.k]: throws on [undefined] and [null]; primitives and arrays
    have none of the field names the extractor reads. *)
Definition get (v : jsval) (k : string) : result jsval :=
  match v with
  | JUndef | JNull => Throw TypeError
  | JObj fs => Ok (match assoc k fs with Some x => x | None => JUndef end)
  | _ => Ok JUndef
  end.

(** ** Strings *)

Definition newline : string := String (ascii_of_nat 10) EmptyString.

Definition digit_char (d : Z) : ascii := ascii_of_nat (48 + Z.to_nat d).

Fixpoint digits_aux (fuel : nat) (n : Z) (acc : string) : string :=
  match fuel with
  | O => acc
  | S f =>
      let acc' := String (digit_char (n mod 10)) acc in
      if n <? 10 then acc' else digits_aux f (n / 10) acc'
  end.

(** [String(n)] for an integer [n]. *)
Definition string_of_Z (n : Z) : string :=
  if n <? 0 then "-" ++ digits_aux (S (Z.to_nat (Z.log2 (- n)))) (- n) ""
  else digits_aux (S (Z.to_nat (Z.log2 n))) n "".

(** [String(v)], and [Array.prototype.join] ([null] and [undefined] elements
    print as the empty string).  A parsed object with its own [toString]
    key makes [String] throw: that key holds no function, so
    [OrdinaryToPrimitive] moves on to [valueOf], whose result (the inherited
    one returns the object itself, an own one is no function either) is no
    primitive, and a [TypeError] is thrown. *)
Fixpoint js_to_string (v : jsval) : result string :=
  match v with
  | JUndef => Ok "undefined"
  | JNull => Ok "null"
  | JBool b => Ok (if b then "true" else "false")
  | JNum n => Ok (string_of_Z n)
  | JStr s => Ok s
  | JArr items =>
      ps <- (fix parts (l : list jsval) : result (list string) :=
               match l with
               | [] => Ok []
               | x :: r =>
                   p <- match x with
                        | JUndef | JNull => Ok ""
                        | _ => js_to_string x
                        end ;;
                   ps <- parts r ;; Ok (p :: ps)
               end) items ;;
      Ok (String.concat "," ps)
  | JObj fs =>
      match assoc "toString" fs with
      | Some _ => Throw TypeError
      | None => Ok "[object Object]"
      end
  end.

Definition join_elem (v : jsval) : result string :=
  match v with
  | JUndef | JNull => Ok ""
  | _ => js_to_string v
  end.

Definition array_join (sep : string) (items : list jsval) : result string :=
  ps <- mapM join_elem items ;; Ok (String.concat sep ps).


(** ** Content extraction ([extractContent], lines 141-161) *)

(** The callback of [data.map(item => ...)] in the array branch. *)
Definition elem_content (item : jsval) : result jsval :=
  if is_string item then Ok item
  else if typeof_object item then
    or_else (get item "text") (fun _ =>
    or_else (get item "value") (fun _ =>
    or_else (get item "content") (fun _ => Ok (JStr ""))))
  else Ok (JStr "").

Definition extractContent (data : jsval) : result jsval :=
  if negb (truthy data) then Ok (JStr "") else
  match data with
  | JStr _ => Ok data
  | JArr items =>
      rs <- mapM elem_content items ;;
      r <- array_join newline (filter truthy rs) ;;
      Ok (JStr r)
  | JObj _ =>
      or_else (get data "text") (fun _ =>
      or_else (get data "value") (fun _ =>
      or_else (get data "content") (fun _ =>
      or_else (get data "message") (fun _ => Ok (JStr "")))))
  | _ => Ok (JStr "")
  end.

(** ** Messages ([ChatMessage] of types.ts) *)

Inductive Role : Type := RUser | RAssistant | RSystem | RUnknown.

Definition Role_eqb (a b : Role) : bool :=
  match a, b with
  | RUser, RUser | RAssistant, RAssistant | RSystem, RSystem
  | RUnknown, RUnknown => true
  | _, _ => false
  end.

(** Absent optional properties read as [JUndef]; [rawData] is [None] when the
    object literal does not set it. *)
Record ChatMessage : Type := mkMessage {
  role : Role;
  content : jsval;
  timestamp : jsval;
  toolCalls : jsval;
  toolResults : jsval;
  rawData : option jsval
}.

(** [[...].includes(v)] on a list of string literals. *)
Definition js_str_in (v : jsval) (l : list string) : bool :=
  match v with
  | JStr s => existsb (String.eqb s) l
  | _ => false
  end.

Definition role_of (roleValue : jsval) : Role :=
  if js_str_in roleValue ["user"; "human"; "User"] then RUser
  else if js_str_in roleValue ["assistant"; "bot"; "copilot"; "Assistant"; "ai"]
  then RAssistant
  else if js_str_in roleValue ["system"] then RSystem
  else RUnknown.

Definition field_content (data : jsval) (k : string) : result jsval :=
  v <- get data k ;; extractContent v.

(** [parseMessage] (lines 166-198). *)
Definition parseMessage (data : jsval) : result (option ChatMessage) :=
  if negb (truthy data) || negb (typeof_object data) then Ok None else
  r <- get data "role" ;; t <- get data "type" ;; k <- get data "kind" ;;
  let rl := role_of (js_or r (js_or t (js_or k (JStr "")))) in
  c <- or_else (field_content data "content") (fun _ =>
       or_else (field_content data "text") (fun _ =>
       or_else (field_content data "value") (fun _ =>
       field_content data "message"))) ;;
  if negb (truthy c) && Role_eqb rl RUnknown then Ok None else
  ts <- get data "timestamp" ;; dt <- get data "date" ;;
  tc <- get data "toolCalls" ;; tr <- get data "toolResults" ;;
  Ok (Some (mkMessage rl c (js_or ts dt) tc tr (Some data))).

(** ** Session-level message lists ([parseMessages], lines 203-267) *)

Definition messageContainers : list string :=
  ["messages"; "history"; "exchanges"; "requests"; "turns"; "chatMessages"].

(** The synthetic user message of a request/response item. *)
Definition user_part (item : jsval) : result (list ChatMessage) :=
  rq <- get item "request" ;; mg <- get item "message" ;;
  if truthy rq || truthy mg then
    let request := js_or rq mg in
    uc <- (if is_string request then Ok request else extractContent request) ;;
    if truthy uc then
      ts <- get request "timestamp" ;;
      Ok [mkMessage RUser uc ts JUndef JUndef None]
    else Ok []
  else Ok [].

(** The synthetic assistant message of a request/response item. *)
Definition assistant_part (item : jsval) : result (list ChatMessage) :=
  rs <- get item "response" ;; rt <- get item "result" ;;
  if truthy rs || truthy rt then
    let response := js_or rs rt in
    ac <- (match response with
           | JStr _ => Ok response
           | JArr l =>
               parts <- mapM (fun r => if is_string r then Ok r
                                       else extractContent r) l ;;
               r <- array_join newline (filter truthy parts) ;;
               Ok (JStr r)
           | _ => extractContent response
           end) ;;
    if truthy ac then
      ts <- get response "timestamp" ;;
      Ok [mkMessage RAssistant ac ts JUndef JUndef None]
    else Ok []
  else Ok [].

(** A flat message record, kept when it parses with truthy content. *)
Definition flat_part (item : jsval) : result (list ChatMessage) :=
  rq <- get item "request" ;; rs <- get item "response" ;;
  mg <- get item "message" ;; rt <- get item "result" ;;
  if negb (truthy rq) && negb (truthy rs) && negb (truthy mg) && negb (truthy rt)
  then
    m <- parseMessage item ;;
    match m with
    | Some msg => if truthy (content msg) then Ok [msg] else Ok []
    | None => Ok []
    end
  else Ok [].

(** The body of [for (const item of data[key])]. *)
Definition parse_item (item : jsval) : result (list ChatMessage) :=
  if negb (truthy item) || negb (typeof_object item) then Ok [] else
  u <- user_part item ;; a <- assistant_part item ;; f <- flat_part item ;;
  Ok (u ++ a ++ f)%list.

Fixpoint parse_items (items : list jsval) (acc : list ChatMessage)
  : result (list ChatMessage) :=
  match items with
  | [] => Ok acc
  | it :: r => ms <- parse_item it ;; parse_items r (acc ++ ms)%list
  end.

(** The loop over [messageContainers] with its [break]. *)
Fixpoint scan_containers (data : jsval) (keys : list string)
  (acc : list ChatMessage) : result (list ChatMessage) :=
  match keys with
  | [] => Ok acc
  | k :: ks =>
      c <- get data k ;;
      match c with
      | JArr items =>
          acc' <- parse_items items acc ;;
          if (0 <? length acc')%nat then Ok acc'
          else scan_containers data ks acc'
      | _ => scan_containers data ks acc
      end
  end.

Definition parseMessages (data : jsval) : result (list ChatMessage) :=
  scan_containers data messageContainers [].

(** ** String helpers used by the code *)

(** The lower case of one code unit of Latin-1: the capitals [A]-[Z] and
    the Latin-1 capitals (code units 192-214 and 216-222) move up by 32. *)
Definition lower_ascii (c : ascii) : ascii :=
  let n := nat_of_ascii c in
  if ((65 <=? n) && (n <=? 90))%nat || ((192 <=? n) && (n <=? 214))%nat
     || ((216 <=? n) && (n <=? 222))%nat
  then ascii_of_nat (n + 32) else c.

(** [String.prototype.toLowerCase] on strings of 8-bit code units. *)
Fixpoint lower (s : string) : string :=
  match s with
  | EmptyString => EmptyString
  | String c r => String (lower_ascii c) (lower r)
  end.

(** [s.includes(q)]. *)
Fixpoint includes (s q : string) : bool :=
  String.prefix q s ||
  match s with
  | EmptyString => false
  | String _ r => includes r q
  end.

(** [s.endsWith(suf)]. *)
Definition endsWith (s suf : string) : bool :=
  (String.length suf <=? String.length s)%nat &&
  String.eqb (substring (String.length s - String.length suf)
                        (String.length suf) s) suf.

(** [path.join(a, b)] for a relative [b] (POSIX separator, no normalisation). *)
Definition path_join (a b : string) : string := a ++ "/" ++ b.

Fixpoint split_slash (s : string) (cur : string) : list string :=
  match s with
  | EmptyString => [cur]
  | String c r =>
      if Ascii.eqb c "/" then cur :: split_slash r ""
      else split_slash r (cur ++ String c EmptyString)
  end.

(** [path.basename(p)]: the last non-empty segment. *)
Definition basename (p : string) : string :=
  last (filter (fun x => negb (String.eqb x "")) (split_slash p "")) "".

(** [path.basename(p, ext)]: the suffix is removed unless it is the whole name. *)
Definition basename_ext (p ext : string) : string :=
  let b := basename p in
  if endsWith b ext && negb (String.eqb b ext)
  then substring 0 (String.length b - String.length ext) b
  else b.

Definition hex_val (c : ascii) : option nat :=
  let n := nat_of_ascii c in
  if ((48 <=? n) && (n <=? 57))%nat then Some (n - 48)%nat
  else if ((65 <=? n) && (n <=? 70))%nat then Some (n - 55)%nat
  else if ((97 <=? n) && (n <=? 102))%nat then Some (n - 87)%nat
  else None.

(** [decodeURIComponent] on ASCII: an escape [%XX] below 0x80 decodes to its
    character; a malformed escape throws [URIError].  Escapes of bytes
    0x80-0xFF encode non-ASCII characters, outside this string model; they
    throw here as well. *)
Fixpoint decodeURIComponent (s : string) : result string :=
  match s with
  | EmptyString => Ok ""
  | String c r =>
      if Ascii.eqb c "%" then
        match r with
        | String h1 (String h2 r') =>
            match hex_val h1, hex_val h2 with
            | Some a, Some b =>
                if (16 * a + b <? 128)%nat then
                  rest <- decodeURIComponent r' ;;
                  Ok (String (ascii_of_nat (16 * a + b)) rest)
                else Throw URIError
            | _, _ => Throw URIError
            end
        | _ => Throw URIError
        end
      else rest <- decodeURIComponent r ;; Ok (String c rest)
  end.

(** ** Workspaces and sessions ([types.ts]) *)

Record WorkspaceInfo : Type := mkWorkspace {
  workspaceId : string;
  storagePath : string;
  ws_projectPath : option string;
  projectName : option string;
  chatSessionFiles : list string;
  hasStateDb : bool
}.

Inductive Source : Type := SrcJson | SrcSqlite.

(** [sessionId] and [title] are what the code stores: a database session
    takes [data.sessionId || sessionId], which need not be a string. *)
Record ChatSession : Type := mkSession {
  sessionId : jsval;
  title : jsval;
  messages : list ChatMessage;
  s_workspaceId : string;
  workspaceName : string;
  projectPath : option string;
  createdAt : jsval;
  modifiedAt : option Z;
  model : jsval;
  agentMode : jsval;
  source : Source;
  filePath : option string
}.

(** ** The host environment *)

(** An opened [state.vscdb]: [item_table] is [None] when the query throws
    (no [ItemTable]); a row's value is [None] when [JSON.parse] throws on it.
    [close_ok] is whether [db.close()] returns normally. *)
Record DbHandle : Type := mkDbHandle {
  item_table : option (list (string * option jsval));
  close_ok : bool
}.

(** File system, SQLite driver and clock as seen by the extractor.
    [readdir_entries] lists (name, isDirectory) and [readdir_names] names;
    [None] when [readdirSync] throws.  [read_json] is [readFileSync] followed
    by [JSON.parse], [None] when either throws.  [open_db] is
    [new Database(path, {readonly: true})], [None] when it throws.
    [clock n] is the value of the [n]-th call of [Date.now()]. *)
Record Env : Type := mkEnv {
  homedir : string;
  platform : string;
  env_APPDATA : string;
  exists_path : string -> bool;
  readdir_entries : string -> option (list (string * bool));
  readdir_names : string -> option (list string);
  read_json : string -> option jsval;
  stat_mtime : string -> option Z;
  sqlite_driver : bool;
  open_db : string -> option DbHandle;
  clock : nat -> Z
}.

(** ** Session building *)

Definition first_user (ms : list ChatMessage) : option ChatMessage :=
  find (fun m => Role_eqb (role m) RUser) ms.

(** [if (!title && messages.length > 0) { ... }]: the first 60 characters
    of the first user message, with [...] when longer. *)
Definition title_from_messages (t0 : jsval) (ms : list ChatMessage)
  : result jsval :=
  if truthy t0 then Ok t0 else
  if (0 <? length ms)%nat then
    match first_user ms with
    | Some m =>
        match content m with
        | JStr c =>
            let t := substring 0 60 c in
            Ok (JStr (if (60 <? String.length c)%nat then t ++ "..." else t))
        | _ => Throw TypeError
        end
    | None => Ok t0
    end
  else Ok t0.

Definition workspace_name (ws : WorkspaceInfo) : string :=
  match projectName ws with
  | Some n => if String.eqb n "" then "Workspace " ++ substring 0 8 (workspaceId ws) ++ "..." else n
  | None => "Workspace " ++ substring 0 8 (workspaceId ws) ++ "..."
  end.

(** [parseSessionFromFile] (lines 272-311); [None] is the caught error. *)
Definition parseSessionFromFile (env : Env) (fp : string) (ws : WorkspaceInfo)
  : option ChatSession :=
  match read_json env fp with
  | None => None
  | Some data =>
      let r :=
        ms <- parseMessages data ;;
        t1 <- get data "title" ;; t2 <- get data "name" ;;
        t3 <- get data "sessionTitle" ;; t4 <- get data "customTitle" ;;
        ttl <- title_from_messages (js_or t1 (js_or t2 (js_or t3 t4))) ms ;;
        mt <- (match stat_mtime env fp with Some z => Ok z | None => Throw FsError end) ;;
        c1 <- get data "createdAt" ;; c2 <- get data "created" ;;
        c3 <- get data "timestamp" ;; c4 <- get data "creationDate" ;;
        m1 <- get data "model" ;; m2 <- get data "languageModel" ;; m3 <- get data "modelId" ;;
        a1 <- get data "agentMode" ;; a2 <- get data "mode" ;; a3 <- get data "agent" ;;
        let sid := basename_ext fp ".json" in
        Ok (mkSession (JStr sid)
              (js_or ttl (JStr ("Chat " ++ substring 0 8 sid ++ "...")))
              ms (workspaceId ws) (workspace_name ws) (ws_projectPath ws)
              (js_or c1 (js_or c2 (js_or c3 c4))) (Some mt)
              (js_or m1 (js_or m2 m3)) (js_or a1 (js_or a2 a3))
              SrcJson (Some fp)) in
      match r with
      | Ok s => Some s
      | Throw _ => None
      end
  end.

(** ** [Object.entries] order *)

Definition is_digit (c : ascii) : bool :=
  let n := nat_of_ascii c in ((48 <=? n) && (n <=? 57))%nat.

Fixpoint digits_value (s : string) (acc : N) : option N :=
  match s with
  | EmptyString => Some acc
  | String c r =>
      if is_digit c then digits_value r (10 * acc + N.of_nat (nat_of_ascii c - 48))%N
      else None
  end.

(** A canonical array index: decimal without leading zeros, below 2^32 - 1. *)
Definition array_index (k : string) : option N :=
  match k with
  | EmptyString => None
  | String c r =>
      if Ascii.eqb c "0" && negb (String.eqb r "") then None else
      match digits_value k 0 with
      | Some n => if (n <? 4294967295)%N then Some n else None
      | None => None
      end
  end.

Fixpoint insert_index (e : N * (string * jsval)) (l : list (N * (string * jsval)))
  : list (N * (string * jsval)) :=
  match l with
  | [] => [e]
  | e' :: r => if (fst e <=? fst e')%N then e :: l else e' :: insert_index e r
  end.

(** Integer-like keys first in ascending order, then the other keys in
    insertion order. *)
Definition object_entries (fs : list (string * jsval)) : list (string * jsval) :=
  let idx := fold_right (fun kv acc =>
               match array_index (fst kv) with
               | Some n => insert_index (n, kv) acc
               | None => acc
               end) [] fs in
  (map snd idx ++ filter (fun kv => match array_index (fst kv) with
                                    | Some _ => false | None => true end) fs)%list.

(** ** State and exceptions of the database extractor *)

(** The number of [Date.now()] calls so far and the [sessions] array. *)
Definition DbSt : Type := (nat * list ChatSession)%type.

Definition ST (A : Type) : Type := DbSt -> result A * DbSt.

Definition ret {A} (a : A) : ST A := fun s => (Ok a, s).

Definition bindST {A B} (m : ST A) (f : A -> ST B) : ST B :=
  fun s => match m s with
           | (Ok a, s') => f a s'
           | (Throw e, s') => (Throw e, s')
           end.

Notation "x <-- m ;;; k" := (bindST m (fun x => k))
  (at level 61, m at next level, right associativity).

Definition liftR {A} (r : result A) : ST A := fun s => (r, s).

Definition raise {A} (e : exn) : ST A := fun s => (Throw e, s).

(** [try { m } catch (e) { }] *)
Definition catch_all (m : ST unit) : ST unit :=
  fun s => let '(_, s') := m s in (Ok tt, s').

Definition now (env : Env) : ST Z :=
  fun '(t, ss) => (Ok (clock env t), (S t, ss)).

Definition push (x : ChatSession) : ST unit :=
  fun '(t, ss) => (Ok tt, (t, ss ++ [x])%list).

(** [createSessionFromData] (lines 387-410). *)
Definition createSessionFromData (env : Env) (data : jsval) (ms : list ChatMessage)
  (ws : WorkspaceInfo) (sid : string) : ST ChatSession :=
  t1 <-- liftR (get data "title") ;;; t2 <-- liftR (get data "name") ;;;
  t3 <-- liftR (get data "sessionTitle") ;;;
  ttl <-- liftR (title_from_messages (js_or t1 (js_or t2 t3)) ms) ;;;
  i <-- liftR (get data "sessionId") ;;;
  c1 <-- liftR (get data "createdAt") ;;; c2 <-- liftR (get data "created") ;;;
  mt <-- now env ;;;
  m1 <-- liftR (get data "model") ;;; m2 <-- liftR (get data "languageModel") ;;;
  a1 <-- liftR (get data "agentMode") ;;; a2 <-- liftR (get data "mode") ;;;
  ret (mkSession (js_or i (JStr sid))
         (js_or ttl (JStr ("Chat " ++ substring 0 8 sid ++ "...")))
         ms (workspaceId ws) (workspace_name ws) (ws_projectPath ws)
         (js_or c1 c2) (Some mt) (js_or m1 m2) (js_or a1 a2) SrcSqlite None).

(** [const messages = parseMessages(d); if (messages.length > 0) sessions.push(...)] *)
Definition session_of (env : Env) (ws : WorkspaceInfo) (d : jsval) (sid : ST string)
  : ST unit :=
  ms <-- liftR (parseMessages d) ;;;
  if (0 <? length ms)%nat then
    i <-- sid ;;; sess <-- createSessionFromData env d ms ws i ;;; push sess
  else ret tt.

Fixpoint db_array_loop (env : Env) (ws : WorkspaceInfo) (items : list jsval) (i : Z)
  : ST unit :=
  match items with
  | [] => ret tt
  | d :: r =>
      _ <-- (if typeof_object d then session_of env ws d (ret ("db_" ++ string_of_Z i))
             else ret tt) ;;;
      db_array_loop env ws r (i + 1)
  end.

Fixpoint db_entries_loop (env : Env) (ws : WorkspaceInfo) (es : list (string * jsval))
  : ST unit :=
  match es with
  | [] => ret tt
  | (sid, sdata) :: r =>
      _ <-- (if typeof_object sdata then session_of env ws sdata (ret sid)
             else ret tt) ;;;
      db_entries_loop env ws r
  end.

(** [processDbEntry] (lines 354-385). *)
Definition processDbEntry (env : Env) (data : jsval) (ws : WorkspaceInfo) : ST unit :=
  if negb (truthy data) then ret tt else
  match data with
  | JArr items => db_array_loop env ws items 0
  | JObj _ =>
      ss <-- liftR (get data "sessions") ;;;
      if truthy ss then
        match ss with
        | JObj fs => db_entries_loop env ws (object_entries fs)
        | _ => ret tt
        end
      else session_of env ws data (t <-- now env ;;; ret ("db_" ++ string_of_Z t))
  | _ => ret tt
  end.

(** SQLite's [LIKE] is case-insensitive on ASCII. *)
Definition chat_key (k : string) : bool :=
  includes (lower k) "chat" || includes (lower k) "interactive" ||
  includes (lower k) "copilot" || includes (lower k) "session".

(** The row loop with its per-row [try]/[catch]. *)
Fixpoint rows_loop (env : Env) (ws : WorkspaceInfo) (rows : list (string * option jsval))
  : ST unit :=
  match rows with
  | [] => ret tt
  | (_, v) :: r =>
      _ <-- catch_all (match v with
                       | None => raise TypeError
                       | Some data => processDbEntry env data ws
                       end) ;;;
      rows_loop env ws r
  end.

(** The body of the outer [try]. *)
Definition sqlite_body (env : Env) (ws : WorkspaceInfo) (dbPath : string) : ST unit :=
  _ <-- (if sqlite_driver env then ret tt else raise DbError) ;;;
  h <-- (match open_db env dbPath with Some h => ret h | None => raise DbError end) ;;;
  rows <-- (match item_table h with
            | Some tbl => ret (filter (fun kv => chat_key (fst kv)) tbl)
            | None => raise DbError
            end) ;;;
  _ <-- rows_loop env ws rows ;;;
  if close_ok h then ret tt else raise DbError.

(** [extractSessionsFromSqlite] (lines 316-352), from a count of earlier
    [Date.now()] calls: the sessions returned (the outer [catch] returns
    whatever was pushed) and the new count. *)
Definition extractSessionsFromSqlite (env : Env) (ws : WorkspaceInfo) (t : nat)
  : result (list ChatSession) * nat :=
  let dbPath := path_join (storagePath ws) "state.vscdb" in
  if negb (exists_path env dbPath) then (Ok [], t) else
  let '(_, (t', sessions)) := sqlite_body env ws dbPath (t, []) in
  (Ok sessions, t').

(** ** Workspace discovery *)

Record VariantConfig : Type := mkVariant {
  vname : string; vlinux : string; vdarwin : string; vwindows : string
}.

(** [VSCODE_VARIANTS], in [Object.entries] order. *)
Definition VSCODE_VARIANTS : list VariantConfig :=
  [ mkVariant "VS Code" ".config/Code/User/workspaceStorage"
      "Library/Application Support/Code/User/workspaceStorage"
      "Code/User/workspaceStorage";
    mkVariant "VS Code Insiders" ".config/Code - Insiders/User/workspaceStorage"
      "Library/Application Support/Code - Insiders/User/workspaceStorage"
      "Code - Insiders/User/workspaceStorage";
    mkVariant "VSCodium" ".config/VSCodium/User/workspaceStorage"
      "Library/Application Support/VSCodium/User/workspaceStorage"
      "VSCodium/User/workspaceStorage";
    mkVariant "Cursor" ".config/Cursor/User/workspaceStorage"
      "Library/Application Support/Cursor/User/workspaceStorage"
      "Cursor/User/workspaceStorage" ].

Definition variant_path (env : Env) (cfg : VariantConfig) : string :=
  if String.eqb (platform env) "win32" then
    let appData := if String.eqb (env_APPDATA env) ""
                   then path_join (path_join (homedir env) "AppData") "Roaming"
                   else env_APPDATA env in
    path_join appData (vwindows cfg)
  else if String.eqb (platform env) "darwin" then path_join (homedir env) (vdarwin cfg)
  else path_join (homedir env) (vlinux cfg).

(** [getWorkspaceStoragePaths] (lines 41-64). *)
Definition getWorkspaceStoragePaths (env : Env) : list (string * string) :=
  flat_map (fun cfg => let p := variant_path env cfg in
                       if exists_path env p then [(vname cfg, p)] else [])
           VSCODE_VARIANTS.

(** The [try] block reading [workspace.json]: [Some (projectPath, projectName)]
    when it sets them. *)
Definition project_of (env : Env) (wsJson : string) : option (string * string) :=
  if negb (exists_path env wsJson) then None else
  match read_json env wsJson with
  | None => None
  | Some wsData =>
      let r :=
        f <- get wsData "folder" ;; w <- get wsData "workspace" ;;
        let pp := js_or f w in
        if truthy pp then
          match pp with
          | JStr p =>
              let p' := if String.prefix "file://" p
                        then substring 7 (String.length p - 7) p else p in
              d <- decodeURIComponent p' ;; Ok (Some (d, basename d))
          | _ => Throw TypeError
          end
        else Ok None in
      match r with
      | Ok o => o
      | Throw _ => None
      end
  end.

Definition workspace_of (env : Env) (storageDir name : string) : list WorkspaceInfo :=
  let workspacePath := path_join storageDir name in
  let chatSessionsDir := path_join workspacePath "chatSessions" in
  let hasChats := exists_path env chatSessionsDir in
  let hasDb := exists_path env (path_join workspacePath "state.vscdb") in
  if hasChats || hasDb then
    let proj := project_of env (path_join workspacePath "workspace.json") in
    let files :=
      if hasChats then
        match readdir_names env chatSessionsDir with
        | Some fs => map (path_join chatSessionsDir) (filter (fun f => endsWith f ".json") fs)
        | None => []
        end
      else [] in
    [mkWorkspace name workspacePath (option_map fst proj) (option_map snd proj)
                 files hasDb]
  else [].

(** [discoverWorkspaces] (lines 69-136). *)
Definition discoverWorkspaces (env : Env) : list WorkspaceInfo :=
  flat_map (fun vp : string * string =>
              let sp := snd vp in
              match readdir_entries env sp with
              | None => []
              | Some ents =>
                  flat_map (fun e : string * bool =>
                              if snd e then workspace_of env sp (fst e) else []) ents
              end)
           (getWorkspaceStoragePaths env).

(** ** Aggregation ([getAllSessions], lines 415-444) *)

(** [SameValueZero] as used by [Set.prototype.has].  Every object or array
    id comes from its own [JSON.parse] allocation, so no two are identical. *)
Definition sameValueZero (a b : jsval) : bool :=
  match a, b with
  | JUndef, JUndef | JNull, JNull => true
  | JBool x, JBool y => Bool.eqb x y
  | JNum x, JNum y => x =? y
  | JStr x, JStr y => String.eqb x y
  | _, _ => false
  end.

Definition has (seen : list jsval) (x : jsval) : bool :=
  existsb (sameValueZero x) seen.

(** The sessions pushed so far and [seenIds]. *)
Definition AggSt : Type := (list ChatSession * list jsval)%type.

Definition admit_file (st : AggSt) (o : option ChatSession) : AggSt :=
  let '(ss, seen) := st in
  match o with
  | Some s =>
      if (0 <? length (messages s))%nat && negb (has seen (sessionId s))
      then ((ss ++ [s])%list, seen ++ [sessionId s])%list
      else st
  | None => st
  end.

Definition admit_db (st : AggSt) (s : ChatSession) : AggSt :=
  let '(ss, seen) := st in
  if negb (has seen (sessionId s))
  then ((ss ++ [s])%list, seen ++ [sessionId s])%list
  else st.

(** The loop over workspaces, from a count of [Date.now()] calls. *)
Fixpoint aggregate (env : Env) (wss : list WorkspaceInfo) (t : nat) (st : AggSt)
  : AggSt :=
  match wss with
  | [] => st
  | ws :: r =>
      let st1 := fold_left (fun acc fp => admit_file acc (parseSessionFromFile env fp ws))
                           (chatSessionFiles ws) st in
      let '(res, t') := extractSessionsFromSqlite env ws t in
      let dbs := match res with Ok l => l | Throw _ => [] end in
      aggregate env r t' (fold_left admit_db dbs st1)
  end.

(** [(s.modifiedAt || 0)] *)
Definition mkey (s : ChatSession) : Z :=
  match modifiedAt s with Some z => z | None => 0 end.

(** [Array.prototype.sort] with the comparator [(b.modifiedAt || 0) -
    (a.modifiedAt || 0)].  The sort is stable (ECMAScript 2019), so for this
    consistent comparator its result is the one of this stable insertion
    sort. *)
Fixpoint insert_desc (x : ChatSession) (l : list ChatSession) : list ChatSession :=
  match l with
  | [] => [x]
  | y :: r => if mkey y <=? mkey x then x :: l else y :: insert_desc x r
  end.

Fixpoint sort_sessions (l : list ChatSession) : list ChatSession :=
  match l with
  | [] => []
  | x :: r => insert_desc x (sort_sessions r)
  end.

Definition getAllSessions (env : Env) : list ChatSession :=
  sort_sessions (fst (aggregate env (discoverWorkspaces env) 0 ([], []))).

(** ** Search ([searchSessions], lines 449-472) *)

(** [v.toLowerCase()]: only strings have the method. *)
Definition toLowerCase (v : jsval) : result string :=
  match v with
  | JStr s => Ok (lower s)
  | _ => Throw TypeError
  end.

Fixpoint match_messages (ms : list ChatMessage) (lq : string) (acc : list ChatMessage)
  : result (list ChatMessage) :=
  match ms with
  | [] => Ok acc
  | m :: r =>
      c <- toLowerCase (content m) ;;
      match_messages r lq (if includes c lq then (acc ++ [m])%list else acc)
  end.

Fixpoint search_loop (ss : list ChatSession) (lq : string)
  (acc : list (ChatSession * list ChatMessage))
  : result (list (ChatSession * list ChatMessage)) :=
  match ss with
  | [] => Ok acc
  | s :: r =>
      tl <- toLowerCase (title s) ;;
      let titleMatch := includes tl lq in
      ms <- match_messages (messages s) lq [] ;;
      search_loop r lq
        (if titleMatch || (0 <? length ms)%nat then (acc ++ [(s, ms)])%list else acc)
  end.

Definition searchSessions (sessions : list ChatSession) (query : string)
  : result (list (ChatSession * list ChatMessage)) :=
  search_loop sessions (lower query) [].

(** ** Export formatters ([src/src/formatters.ts]) *)

Definition dquote : ascii := ascii_of_nat 34.

(** [text.replace(/c/g, r)] for a one-character pattern [c]. *)
Fixpoint replace_char (c : ascii) (r : string) (s : string) : string :=
  match s with
  | EmptyString => EmptyString
  | String c' s' =>
      if Ascii.eqb c' c then r ++ replace_char c r s'
      else String c' (replace_char c r s')
  end.

(** [escapeHtml] of [formatAsHtml] (lines 210-216). *)
Definition escapeHtml (text : string) : string :=
  replace_char dquote "&quot;"
    (replace_char ">" "&gt;"
       (replace_char "<" "&lt;"
          (replace_char "&" "&amp;" text))).

(** The character class of line 59: [<], [>], [:], the double quote, [/],
    the backslash, [|], [?] and [*]. *)
Definition is_forbidden (c : ascii) : bool :=
  existsb (Ascii.eqb c) (list_ascii_of_string "<>:/\|?*") || Ascii.eqb c dquote.

(** [\s], which is also the set [String.prototype.trim] removes, on the
    code units of this string model: tab, line feed, vertical tab, form
    feed, carriage return, space and (code unit 160) no-break space. *)
Definition is_ws (c : ascii) : bool :=
  let n := nat_of_ascii c in
  ((9 <=? n) && (n <=? 13))%nat || (n =? 32)%nat || (n =? 160)%nat.

Definition us : ascii := "_".

Definition is_us (c : ascii) : bool := Ascii.eqb c us.

(** [s.replace(/P+/g, '_')]: each maximal run of characters satisfying [p]
    becomes one underscore; [inrun] tells whether the previous character
    belonged to a run. *)
Fixpoint replace_runs (p : ascii -> bool) (inrun : bool) (l : list ascii)
  : list ascii :=
  match l with
  | [] => []
  | c :: r =>
      if p c then
        if inrun then replace_runs p true r else us :: replace_runs p true r
      else c :: replace_runs p false r
  end.

(** [s.replace(/^P+/, '')] *)
Fixpoint drop_while (p : ascii -> bool) (l : list ascii) : list ascii :=
  match l with
  | [] => []
  | c :: r => if p c then drop_while p r else l
  end.

(** [s.replace(/P+$/, '')] *)
Definition drop_while_end (p : ascii -> bool) (l : list ascii) : list ascii :=
  rev (drop_while p (rev l)).

(** [sanitizeFilename(name, maxLength)] (lines 57-70); the callers use the
    default [maxLength = 50].  [.trim()] is [drop_while] at both ends, and
    [/^_+|_+$/g] removes the leading and the trailing run of underscores. *)
Definition sanitizeFilename (name : string) (maxLength : Z) : string :=
  let s1 := map (fun c => if is_forbidden c then us else c) (list_ascii_of_string name) in
  let s2 := replace_runs is_ws false s1 in
  let s3 := replace_runs is_us false s2 in
  let s4 := drop_while_end is_ws (drop_while is_ws s3) in
  let s5 := drop_while_end is_us (drop_while is_us s4) in
  let s6 := if maxLength <? Z.of_nat (length s5)
            then drop_while_end is_us (firstn (Z.to_nat maxLength) s5)
            else s5 in
  match s6 with
  | [] => "untitled"
  | _ => string_of_list_ascii s6
  end.

(** ** Sidebar tree ([ChatSessionTreeProvider], src/unnamed/part_000) *)

(** [arr.slice(0, n)]: a negative [n] counts from the end. *)
Definition slice0 {A} (n : Z) (l : list A) : list A :=
  let len := Z.of_nat (length l) in
  let e := if n <? 0 then Z.max 0 (len + n) else Z.min n len in
  firstn (Z.to_nat e) l.

(** [if (!workspaceMap.has(key)) workspaceMap.set(key, []);
    workspaceMap.get(key)!.push(session)]; a [Map] keeps its keys in
    insertion order. *)
Fixpoint map_push (k : string) (s : ChatSession) (m : list (string * list ChatSession))
  : list (string * list ChatSession) :=
  match m with
  | [] => [(k, [s])]
  | (k', ss) :: r =>
      if String.eqb k k' then (k', (ss ++ [s])%list) :: r
      else (k', ss) :: map_push k s r
  end.

Definition group_by_workspace (ss : list ChatSession) : list (string * list ChatSession) :=
  fold_left (fun m s => map_push (workspaceName s) s m) ss [].

(** [Math.max(...xs)]; [None] is [-Infinity], its value on no argument. *)
Definition math_max (xs : list Z) : option Z :=
  fold_left (fun acc x => match acc with
                          | None => Some x
                          | Some a => Some (Z.max a x)
                          end) xs None.

(** [Math.max(...sessions.map(s => s.modifiedAt || 0))] *)
Definition latest (ss : list ChatSession) : option Z := math_max (map mkey ss).

(** [bLatest - aLatest <= 0] read as [a] not after [b]: [-Infinity] is below
    every number, and [-Infinity - -Infinity] is [NaN], which [sort] takes
    as [0]. *)
Definition latest_le (a b : option Z) : bool :=
  match a, b with
  | None, _ => true
  | Some _, None => false
  | Some x, Some y => x <=? y
  end.

(** The stable [sort] of the [Map] entries by latest session, most recent
    first, as a stable insertion sort. *)
Fixpoint insert_group (g : string * list ChatSession) (l : list (string * list ChatSession))
  : list (string * list ChatSession) :=
  match l with
  | [] => [g]
  | h :: r => if latest_le (latest (snd h)) (latest (snd g)) then g :: l
              else h :: insert_group g r
  end.

Fixpoint sort_groups (l : list (string * list ChatSession))
  : list (string * list ChatSession) :=
  match l with
  | [] => []
  | g :: r => insert_group g (sort_groups r)
  end.

Inductive TreeItem : Type :=
| WorkspaceTreeItem (name : string) (sessions : list ChatSession)
| ChatSessionTreeItem (session : ChatSession).

(** [getChildren(element)] (lines 116-171) of a provider holding [sessions],
    with its [groupByWorkspace] flag and the [maxSessionsInView] setting;
    [None] is the root. *)
Definition getChildren (sessions : list ChatSession) (groupByWorkspace : bool)
  (maxSessions : Z) (element : option TreeItem) : list TreeItem :=
  match element with
  | None =>
      match sessions with
      | [] => []
      | _ =>
          if groupByWorkspace then
            map (fun g => WorkspaceTreeItem (fst g) (snd g))
                (sort_groups (group_by_workspace (slice0 maxSessions sessions)))
          else map ChatSessionTreeItem (slice0 maxSessions sessions)
      end
  | Some (WorkspaceTreeItem _ ss) => map ChatSessionTreeItem ss
  | Some (ChatSessionTreeItem _) => []
  end.

(** ** Reference definitions for the statements *)

(** Every session the aggregation meets, in aggregation order: per workspace,
    the file sessions that parse, then the database sessions. *)
Fixpoint candidates (env : Env) (wss : list WorkspaceInfo) (t : nat)
  : list ChatSession :=
  match wss with
  | [] => []
  | ws :: r =>
      let files := flat_map (fun fp => match parseSessionFromFile env fp ws with
                                       | Some s => [s]
                                       | None => []
                                       end) (chatSessionFiles ws) in
      let '(res, t') := extractSessionsFromSqlite env ws t in
      let dbs := match res with Ok l => l | Throw _ => [] end in
      (files ++ dbs ++ candidates env r t')%list
  end.

Definition nonempty (s : ChatSession) : bool := (0 <? length (messages s))%nat.

(** A session is kept iff no earlier session of the list has the same id. *)
Fixpoint first_seen_aux (prev l : list ChatSession) : list ChatSession :=
  match l with
  | [] => []
  | c :: r =>
      ((if existsb (fun p => sameValueZero (sessionId p) (sessionId c)) prev
        then [] else [c]) ++ first_seen_aux (prev ++ [c]) r)%list
  end.

Definition first_seen (l : list ChatSession) : list ChatSession :=
  first_seen_aux [] l.

(** The list [getAllSessions] sorts. *)
Definition aggregated (env : Env) : list ChatSession :=
  fst (aggregate env (discoverWorkspaces env) 0 ([], [])).

Definition distinct_ids (a b : ChatSession) : Prop :=
  sameValueZero (sessionId a) (sessionId b) = false.

(** The declared types of [searchSessions]'s input: string titles and contents. *)
Definition well_typed (s : ChatSession) : bool :=
  is_string (title s) && forallb (fun m => is_string (content m)) (messages s).

Definition folded_contains (v : jsval) (q : string) : bool :=
  match v with
  | JStr s => includes (lower s) (lower q)
  | _ => false
  end.

Definition message_matches (q : string) (m : ChatMessage) : bool :=
  folded_contains (content m) q.

Definition session_matches (q : string) (s : ChatSession) : bool :=
  folded_contains (title s) q || existsb (message_matches q) (messages s).

(** The property every extracted message has. *)
Definition msg_ok (m : ChatMessage) : Prop :=
  truthy (content m) = true /\
  match rawData m with
  | Some r => parseMessage r = Ok (Some m)
  | None => role m = RUser \/ role m = RAssistant
  end.

(** What a built session owes to message-list extraction. *)
Definition from_extraction (s : ChatSession) : Prop :=
  exists d, parseMessages d = Ok (messages s).

(** A property kept by every push of an [ST] computation. *)
Definition st_pres {A} (P : ChatSession -> Prop) (m : ST A) : Prop :=
  forall t ss, Forall P ss -> Forall P (snd (snd (m (t, ss)))).


(** ** Auxiliary definitions for the further properties *)

(** What [escapeHtml] makes of one character. *)
Definition esc1 (c : ascii) : string :=
  if Ascii.eqb c "&" then "&amp;"
  else if Ascii.eqb c "<" then "&lt;"
  else if Ascii.eqb c ">" then "&gt;"
  else if Ascii.eqb c dquote then "&quot;"
  else String c "".

Fixpoint esc_all (s : string) : string :=
  match s with
  | EmptyString => ""
  | String c r => esc1 c ++ esc_all r
  end.

(** No two adjacent underscores. *)
Fixpoint uu_free (l : list ascii) : bool :=
  match l with
  | c :: ((d :: _) as r) => negb (is_us c && is_us d) && uu_free r
  | _ => true
  end.

(** The shape of a sanitised name. *)
Definition clean (l : list ascii) : Prop :=
  (forall c, In c l -> is_forbidden c = false /\ is_ws c = false) /\
  uu_free l = true /\ hd_error l <> Some us /\ hd_error (rev l) <> Some us.

(** The steps of [sanitizeFilename] before the length check. *)
Definition sanitize_s5 (name : string) : list ascii :=
  let s1 := map (fun c => if is_forbidden c then us else c) (list_ascii_of_string name) in
  let s2 := replace_runs is_ws false s1 in
  let s3 := replace_runs is_us false s2 in
  let s4 := drop_while_end is_ws (drop_while is_ws s3) in
  drop_while_end is_us (drop_while is_us s4).

Definition sanitize_s6 (name : string) (m : Z) : list ascii :=
  let s5 := sanitize_s5 name in
  if m <? Z.of_nat (length s5) then drop_while_end is_us (firstn (Z.to_nat m) s5) else s5.

Definition in_ws (k : string) (s : ChatSession) : bool := String.eqb (workspaceName s) k.

(** The keys of the [Map], in insertion order. *)
Definition add_key (k : string) (ks : list string) : list string :=
  if existsb (String.eqb k) ks then ks else (ks ++ [k])%list.

Definition keys_of (l : list ChatSession) : list string :=
  fold_left (fun ks s => add_key (workspaceName s) ks) l [].

(** Sorting the groups. *)
Definition gdesc (a b : string * list ChatSession) : Prop :=
  latest_le (latest (snd b)) (latest (snd a)) = true.

(** The fields [createSessionFromData] sets from its arguments. *)
Definition db_fields (env : Env) (ws : WorkspaceInfo) (s : ChatSession) : Prop :=
  source s = SrcSqlite /\ filePath s = None /\ s_workspaceId s = workspaceId ws /\
  workspaceName s = workspace_name ws /\ projectPath s = ws_projectPath ws /\
  exists k, modifiedAt s = Some (clock env k).

(** ** Concrete inputs *)

Definition msg (r : Role) (c : string) : ChatMessage :=
  mkMessage r (JStr c) JUndef JUndef JUndef None.

Definition sample_session (id ttl : string) (ms : list ChatMessage) : ChatSession :=
  mkSession (JStr id) (JStr ttl) ms "ws" "Workspace ws..." None JUndef (Some 1)
            JUndef JUndef SrcJson None.

Definition sample_sessions : list ChatSession :=
  [ sample_session "s1" "Binary Search question"
      [msg RUser "how do I write it"; msg RAssistant "use a loop"];
    sample_session "s2" "Sorting"
      [msg RUser "explain BINARY SEARCH"; msg RAssistant "it halves the range";
       msg RUser "and binary search trees?"];
    sample_session "s3" "Unrelated" [msg RUser "hello"] ].

Definition storage_root : string := "/h/.config/Code/User/workspaceStorage".

Definition user_record (c : string) : jsval :=
  JObj [("role", JStr "user"); ("content", JStr c)].

(** Two workspaces [w1], [w2] each with a transcript [a.json]; the one of
    [w1] has no messages.  No database driver. *)
Definition env_two_files : Env :=
  mkEnv "/h" "linux" ""
    (fun p => String.eqb p storage_root
              || String.eqb p (path_join (path_join storage_root "w1") "chatSessions")
              || String.eqb p (path_join (path_join storage_root "w2") "chatSessions"))
    (fun p => if String.eqb p storage_root then Some [("w1", true); ("w2", true)] else None)
    (fun _ => Some ["a.json"])
    (fun p => if String.eqb p (path_join (path_join (path_join storage_root "w1")
                                                     "chatSessions") "a.json")
              then Some (JObj [("messages", JArr [])])
              else Some (JObj [("messages", JArr [user_record "hi"])]))
    (fun _ => Some 7)
    false
    (fun _ => None)
    (fun n => Z.of_nat n).

Definition ws_db : WorkspaceInfo := mkWorkspace "w" "/s/w" None None [] true.

(** A workspace database with one chat row holding a flat message list. *)
Definition env_db : Env :=
  mkEnv "/h" "linux" "" (fun _ => true) (fun _ => None) (fun _ => None)
    (fun _ => None) (fun _ => None) true
    (fun _ => Some (mkDbHandle
                      (Some [("chat.session.1",
                              Some (JObj [("messages", JArr [user_record "hi"])]))])
                      true))
    (fun n => Z.of_nat n + 1000).

(** The same workspace without the SQLite driver. *)
Definition env_no_driver : Env :=
  mkEnv "/h" "linux" "" (fun _ => true) (fun _ => None) (fun _ => None)
    (fun _ => None) (fun _ => None) false (fun _ => None) (fun n => Z.of_nat n).

(** A workspace with a database and a [workspace.json] naming its folder,
    next to a plain file of the storage root. *)
Definition env_project : Env :=
  mkEnv "/h" "linux" ""
    (fun p => String.eqb p storage_root
              || String.eqb p (path_join (path_join storage_root "w3") "state.vscdb")
              || String.eqb p (path_join (path_join storage_root "w3") "workspace.json"))
    (fun p => if String.eqb p storage_root
              then Some [("w3", true); ("notes.txt", false)] else None)
    (fun _ => None)
    (fun _ => Some (JObj [("folder", JStr "file:///home/u/my%20proj")]))
    (fun _ => None) false (fun _ => None) (fun n => Z.of_nat n).

Definition no_ws : WorkspaceInfo := mkWorkspace "" "" None None [] false.

(** ** Message-level lemmas *)

Ltac crush_binds :=
  repeat match goal with
  | H : bind ?m _ = _ |- _ =>
      let E := fresh "E" in destruct m eqn:E; simpl in H; [|discriminate H]
  | H : (if ?b then _ else _) = _ |- _ =>
      let E := fresh "B" in destruct b eqn:E
  | H : Ok _ = Ok _ |- _ => inversion H; subst; clear H
  | H : Throw _ = Ok _ |- _ => discriminate H
  end.

Lemma parseMessage_rawData (d : jsval) (m : ChatMessage) :
  parseMessage d = Ok (Some m) -> rawData m = Some d.
Proof.
  unfold parseMessage; intro H; crush_binds; try discriminate; reflexivity.
Qed.

Lemma parseMessage_kept (d : jsval) (m : ChatMessage) :
  parseMessage d = Ok (Some m) ->
  Role_eqb (role m) RUnknown = false \/ truthy (content m) = true.
Proof.
  unfold parseMessage; intro H; crush_binds; try discriminate.
  simpl. destruct (truthy a2); [now right|].
  destruct (Role_eqb _ RUnknown); simpl in *; [discriminate|now left].
Qed.

Lemma user_part_ok (it : jsval) (l : list ChatMessage) :
  user_part it = Ok l -> Forall msg_ok l.
Proof.
  unfold user_part; intro H; crush_binds; repeat constructor; auto;
    destruct (is_string _) in *; crush_binds; assumption.
Qed.

Lemma assistant_part_ok (it : jsval) (l : list ChatMessage) :
  assistant_part it = Ok l -> Forall msg_ok l.
Proof.
  unfold assistant_part; intro H; crush_binds; repeat constructor; auto;
    (destruct (js_or _ _) in *; crush_binds; assumption).
Qed.

Lemma flat_part_ok (it : jsval) (l : list ChatMessage) :
  flat_part it = Ok l -> Forall msg_ok l.
Proof.
  unfold flat_part; intro H; crush_binds; try constructor.
  destruct a3 as [msg|]; crush_binds; repeat constructor; auto.
  rewrite (parseMessage_rawData _ _ E3); exact E3.
Qed.

Lemma parse_item_ok (it : jsval) (l : list ChatMessage) :
  parse_item it = Ok l -> Forall msg_ok l.
Proof.
  unfold parse_item; intro H; crush_binds; auto.
  apply Forall_app; split; [eapply user_part_ok; eauto|].
  apply Forall_app; split; [eapply assistant_part_ok; eauto|eapply flat_part_ok; eauto].
Qed.

Lemma parse_items_ok (items : list jsval) (acc l : list ChatMessage) :
  Forall msg_ok acc -> parse_items items acc = Ok l -> Forall msg_ok l.
Proof.
  revert acc; induction items as [|it r IH]; simpl; intros acc Hacc H.
  - crush_binds; assumption.
  - crush_binds. apply (IH _ (proj2 (Forall_app _ _ _) (conj Hacc (parse_item_ok _ _ E))) H).
Qed.

Lemma scan_containers_ok (d : jsval) (keys : list string) (acc l : list ChatMessage) :
  Forall msg_ok acc -> scan_containers d keys acc = Ok l -> Forall msg_ok l.
Proof.
  revert acc; induction keys as [|k ks IH]; simpl; intros acc Hacc H.
  - crush_binds; assumption.
  - crush_binds. destruct a; eauto.
    crush_binds; [|eapply IH; [|eassumption]]; eapply parse_items_ok; eauto.
Qed.

Lemma parseMessages_ok (d : jsval) (ms : list ChatMessage) :
  parseMessages d = Ok ms -> Forall msg_ok ms.
Proof. apply scan_containers_ok; constructor. Qed.

(** ** Database extractor lemmas *)

Definition db_ok (s : ChatSession) : Prop :=
  nonempty s = true /\ from_extraction s.

Lemma createSessionFromData_spec env d ms ws sid t ss :
  match createSessionFromData env d ms ws sid (t, ss) with
  | (r, (_, ss')) => ss' = ss /\ (forall sess, r = Ok sess -> messages sess = ms)
  end.
Proof.
  unfold createSessionFromData, bindST, liftR, now, ret.
  destruct d; simpl; try (split; [reflexivity|discriminate]);
  destruct (title_from_messages _ ms); simpl;
  (split; [reflexivity|intros sess H; inversion H; reflexivity]) ||
  (split; [reflexivity|discriminate]).
Qed.

Lemma st_pres_bind {A B} P (m : ST A) (f : A -> ST B) :
  st_pres P m -> (forall a, st_pres P (f a)) -> st_pres P (bindST m f).
Proof.
  unfold st_pres, bindST; intros Hm Hf t ss H.
  specialize (Hm t ss H).
  destruct (m (t, ss)) as [[a|e] [t' ss']]; simpl in *; auto.
Qed.

Lemma st_pres_ret {A} P (a : A) : st_pres P (ret a).
Proof. unfold st_pres, ret; simpl; auto. Qed.

Lemma st_pres_liftR {A} P (r : result A) : st_pres P (liftR r).
Proof. unfold st_pres, liftR; simpl; auto. Qed.

Lemma st_pres_raise {A} P e : st_pres P (@raise A e).
Proof. unfold st_pres, raise; simpl; auto. Qed.

Lemma st_pres_now P env : st_pres P (now env).
Proof. unfold st_pres, now; simpl; auto. Qed.

Lemma st_pres_catch P (m : ST unit) : st_pres P m -> st_pres P (catch_all m).
Proof.
  unfold st_pres, catch_all; intros Hm t ss H.
  specialize (Hm t ss H); destruct (m (t, ss)); exact Hm.
Qed.

Create HintDb stpres.

#[local] Hint Resolve st_pres_bind st_pres_ret st_pres_liftR st_pres_raise
  st_pres_now st_pres_catch : stpres.

Lemma session_of_pres env ws d (sid : ST string) :
  (forall t ss, snd (snd (sid (t, ss))) = ss) ->
  st_pres db_ok (session_of env ws d sid).
Proof.
  intros Hsid t ss H. unfold session_of, bindST, liftR.
  destruct (parseMessages d) as [ms|e] eqn:Ems; simpl; [|exact H].
  destruct (0 <? length ms)%nat eqn:Hlen; [|exact H].
  specialize (Hsid t ss).
  destruct (sid (t, ss)) as [[i|e] [t1 ss1]]; simpl in Hsid; subst ss1; [|exact H].
  pose proof (createSessionFromData_spec env d ms ws i t1 ss) as Hc.
  destruct (createSessionFromData env d ms ws i (t1, ss)) as [[sess|e] [t2 ss2]];
    destruct Hc as [-> Hm]; [|exact H].
  unfold push; simpl. apply Forall_app; split; [exact H|].
  constructor; [|constructor].
  unfold db_ok, nonempty, from_extraction; rewrite (Hm sess eq_refl); split; [exact Hlen|exists d; exact Ems].
Qed.

Lemma db_array_loop_pres env ws items i : st_pres db_ok (db_array_loop env ws items i).
Proof.
  revert i; induction items as [|d r IH]; intro i; simpl; auto with stpres.
  apply st_pres_bind; auto.
  destruct (typeof_object d); auto with stpres.
  apply session_of_pres; reflexivity.
Qed.

Lemma db_entries_loop_pres env ws es : st_pres db_ok (db_entries_loop env ws es).
Proof.
  induction es as [|[sid sdata] r IH]; simpl; auto with stpres.
  apply st_pres_bind; auto.
  destruct (typeof_object sdata); auto with stpres.
  apply session_of_pres; reflexivity.
Qed.

Lemma processDbEntry_pres env d ws : st_pres db_ok (processDbEntry env d ws).
Proof.
  unfold processDbEntry. destruct (negb (truthy d)); auto with stpres.
  destruct d; auto with stpres.
  - apply db_array_loop_pres.
  - apply st_pres_bind; auto with stpres. intro ss.
    destruct (truthy ss).
    + destruct ss; auto with stpres. apply db_entries_loop_pres.
    + apply session_of_pres. intros t s0. reflexivity.
Qed.

Lemma rows_loop_pres env ws rows : st_pres db_ok (rows_loop env ws rows).
Proof.
  induction rows as [|[k v] r IH]; simpl; auto with stpres.
  apply st_pres_bind; auto. apply st_pres_catch.
  destruct v; auto with stpres. apply processDbEntry_pres.
Qed.

Lemma extractSessionsFromSqlite_ok env ws t :
  match extractSessionsFromSqlite env ws t with
  | (Ok ss, _) => Forall db_ok ss
  | (Throw _, _) => False
  end.
Proof.
  unfold extractSessionsFromSqlite.
  destruct (negb _); [constructor|].
  assert (Hb : st_pres db_ok (sqlite_body env ws (path_join (storagePath ws) "state.vscdb"))).
  { unfold sqlite_body. apply st_pres_bind; [destruct (sqlite_driver env); auto with stpres|].
    intros _. apply st_pres_bind; [destruct (open_db _ _); auto with stpres|].
    intro h. apply st_pres_bind; [destruct (item_table h); auto with stpres|].
    intro rows. apply st_pres_bind; [apply rows_loop_pres|].
    intros _. destruct (close_ok h); auto with stpres. }
  specialize (Hb t [] (Forall_nil _)).
  destruct (sqlite_body _ _ _ (t, [])) as [r [t' ss]]; exact Hb.
Qed.

(** ** File sessions *)

Lemma bind_ok {A B} (m : result A) (f : A -> result B) x :
  bind m f = Ok x -> exists a, m = Ok a /\ f a = Ok x.
Proof. destruct m; simpl; [eauto|discriminate]. Qed.

Lemma parseSessionFromFile_msgs env fp ws s :
  parseSessionFromFile env fp ws = Some s -> from_extraction s.
Proof.
  unfold parseSessionFromFile.
  destruct (read_json env fp) as [d|]; [|discriminate].
  destruct (parseMessages d) as [ms|e] eqn:E; simpl; [|discriminate].
  intro H. exists d. rewrite E.
  match type of H with
  | match ?r with _ => _ end = _ => destruct r eqn:Er; [|discriminate]
  end.
  inversion H; subst; clear H.
  repeat (apply bind_ok in Er; destruct Er as [? [? Er]]).
  inversion Er; reflexivity.
Qed.

(** ** Aggregation lemmas *)

Lemma sameValueZero_sym a b : sameValueZero a b = sameValueZero b a.
Proof.
  destruct a, b; simpl; auto.
  - destruct b, b0; reflexivity.
  - apply Z.eqb_sym.
  - apply String.eqb_sym.
Qed.

Lemma sameValueZero_trans a b c :
  sameValueZero a b = true -> sameValueZero b c = true -> sameValueZero a c = true.
Proof.
  destruct a, b, c; simpl; try discriminate; auto.
  - intros H1 H2. apply Bool.eqb_prop in H1, H2. subst. apply Bool.eqb_reflx.
  - intros H1 H2. apply Z.eqb_eq in H1, H2. subst. apply Z.eqb_refl.
  - intros H1 H2. apply String.eqb_eq in H1, H2. subst. apply String.eqb_refl.
Qed.

(** [seenIds] holds exactly the ids met among [prev]. *)
Definition seen_inv (prev ss : list ChatSession) : Prop :=
  forall x, has (map sessionId ss) x =
            existsb (fun p => sameValueZero (sessionId p) x) prev.

Lemma seen_inv_nil : seen_inv [] [].
Proof. intro x; reflexivity. Qed.

Lemma first_seen_aux_app prev l1 l2 :
  first_seen_aux prev (l1 ++ l2) =
  (first_seen_aux prev l1 ++ first_seen_aux (prev ++ l1) l2)%list.
Proof.
  revert prev; induction l1 as [|c r IH]; intro prev; simpl.
  - rewrite app_nil_r; reflexivity.
  - rewrite IH, <- app_assoc, <- app_assoc; reflexivity.
Qed.

Lemma fold_admit_db l prev ss :
  seen_inv prev ss ->
  fold_left admit_db l (ss, map sessionId ss) =
    ((ss ++ first_seen_aux prev l)%list,
     map sessionId (ss ++ first_seen_aux prev l)) /\
  seen_inv (prev ++ l) (ss ++ first_seen_aux prev l).
Proof.
  revert prev ss; induction l as [|c r IH]; intros prev ss Hinv; simpl.
  - rewrite !app_nil_r; split; [reflexivity|exact Hinv].
  - change (admit_db (ss, map sessionId ss) c) with
      (if negb (has (map sessionId ss) (sessionId c))
       then ((ss ++ [c])%list, (map sessionId ss ++ [sessionId c])%list)
       else (ss, map sessionId ss)).
    rewrite (Hinv (sessionId c)).
    destruct (existsb (fun p => sameValueZero (sessionId p) (sessionId c)) prev)
      eqn:Hdup; simpl;
      replace (prev ++ c :: r)%list with ((prev ++ [c]) ++ r)%list
        by (rewrite <- app_assoc; reflexivity).
    + apply IH.
      intro x. rewrite existsb_app, Hinv. simpl.
      destruct (sameValueZero (sessionId c) x) eqn:Hcx; simpl;
        [|rewrite !orb_false_r; reflexivity].
      rewrite orb_true_r. apply existsb_exists in Hdup as [p [Hp Hpc]].
      apply existsb_exists. exists p; split; [exact Hp|].
      eapply sameValueZero_trans; eauto.
    + assert (Hm : (map sessionId ss ++ [sessionId c])%list = map sessionId (ss ++ [c]))
        by (rewrite map_app; reflexivity).
      rewrite Hm.
      replace (ss ++ c :: first_seen_aux (prev ++ [c]) r)%list
        with ((ss ++ [c]) ++ first_seen_aux (prev ++ [c]) r)%list
        by (rewrite <- app_assoc; reflexivity).
      apply (IH (prev ++ [c])%list (ss ++ [c])%list).
      intro x. unfold has. rewrite map_app, !existsb_app. simpl.
      fold (has (map sessionId ss) x). rewrite Hinv, sameValueZero_sym. reflexivity.
Qed.

Lemma admit_file_some st s :
  admit_file st (Some s) = if nonempty s then admit_db st s else st.
Proof.
  destruct st as [ss seen]; unfold admit_file, admit_db, nonempty.
  destruct (0 <? length (messages s))%nat; reflexivity.
Qed.

Lemma fold_admit_file (g : string -> option ChatSession) files st :
  fold_left (fun acc fp => admit_file acc (g fp)) files st =
  fold_left admit_db
    (filter nonempty (flat_map (fun fp => match g fp with
                                          | Some s => [s]
                                          | None => []
                                          end) files)) st.
Proof.
  revert st; induction files as [|fp r IH]; intro st; simpl; [reflexivity|].
  rewrite filter_app, fold_left_app, IH.
  destruct (g fp) as [s|]; simpl.
  - rewrite admit_file_some. destruct (nonempty s); reflexivity.
  - destruct st; reflexivity.
Qed.

Lemma filter_nonempty_db (l : list ChatSession) :
  Forall db_ok l -> filter nonempty l = l.
Proof.
  induction 1 as [|s r [Hs _] _ IH]; simpl; [reflexivity|].
  rewrite Hs, IH; reflexivity.
Qed.

Lemma aggregate_first_seen env wss t prev ss :
  seen_inv prev ss ->
  fst (aggregate env wss t (ss, map sessionId ss)) =
  (ss ++ first_seen_aux prev (filter nonempty (candidates env wss t)))%list.
Proof.
  revert t prev ss; induction wss as [|ws r IH]; intros t prev ss Hinv; simpl.
  - rewrite app_nil_r; reflexivity.
  - rewrite fold_admit_file.
    set (F := filter nonempty _).
    destruct (fold_admit_db F prev ss Hinv) as [-> Hinv1].
    pose proof (extractSessionsFromSqlite_ok env ws t) as Hdb.
    destruct (extractSessionsFromSqlite env ws t) as [[dbs|e] t']; [|contradiction].
    destruct (fold_admit_db dbs (prev ++ F) _ Hinv1) as [-> Hinv2].
    rewrite (IH t' _ _ Hinv2).
    rewrite !filter_app, (filter_nonempty_db _ Hdb).
    rewrite !first_seen_aux_app, !app_assoc. reflexivity.
Qed.

Lemma aggregated_first_seen env :
  aggregated env = first_seen (filter nonempty (candidates env (discoverWorkspaces env) 0)).
Proof.
  unfold aggregated, first_seen.
  exact (aggregate_first_seen env _ 0 [] [] seen_inv_nil).
Qed.

(** ** Sorting lemmas *)

Definition desc (a b : ChatSession) : Prop := mkey b <= mkey a.

Lemma insert_desc_perm x l : Permutation (insert_desc x l) (x :: l).
Proof.
  induction l as [|y r IH]; simpl; [reflexivity|].
  destruct (mkey y <=? mkey x); [reflexivity|].
  rewrite IH. apply perm_swap.
Qed.

Lemma sort_sessions_perm l : Permutation (sort_sessions l) l.
Proof.
  induction l as [|x r IH]; simpl; [reflexivity|].
  rewrite insert_desc_perm, IH; reflexivity.
Qed.

Lemma insert_desc_hdrel x y l :
  HdRel desc y l -> desc y x -> HdRel desc y (insert_desc x l).
Proof.
  intros Hh Hyx; destruct l as [|z r]; simpl; [now constructor|].
  destruct (mkey z <=? mkey x); constructor; [exact Hyx|].
  inversion Hh; assumption.
Qed.

Lemma insert_desc_sorted x l : Sorted desc l -> Sorted desc (insert_desc x l).
Proof.
  induction l as [|y r IH]; simpl; intro Hs; [now repeat constructor|].
  destruct (mkey y <=? mkey x) eqn:Hyx.
  - constructor; [exact Hs|]. constructor. unfold desc. lia.
  - inversion Hs as [|? ? Hr Hh]; subst.
    constructor; [now apply IH|].
    apply insert_desc_hdrel; [exact Hh|]. unfold desc. lia.
Qed.

Lemma sort_sessions_sorted l : StronglySorted desc (sort_sessions l).
Proof.
  apply Sorted_StronglySorted; [unfold Relations_1.Transitive, desc; intros; lia|].
  induction l as [|x r IH]; simpl; [constructor|].
  now apply insert_desc_sorted.
Qed.

Lemma filter_insert_desc k x l :
  filter (fun s => mkey s =? k) (insert_desc x l) =
  filter (fun s => mkey s =? k) (x :: l).
Proof.
  induction l as [|y r IH]; simpl; [reflexivity|].
  destruct (mkey y <=? mkey x) eqn:Hyx; [reflexivity|].
  simpl. rewrite IH. simpl.
  destruct (mkey y =? k) eqn:Hy, (mkey x =? k) eqn:Hx; try reflexivity.
  apply Z.eqb_eq in Hy, Hx. apply Z.leb_gt in Hyx. lia.
Qed.

Lemma sort_sessions_stable k l :
  filter (fun s => mkey s =? k) (sort_sessions l) = filter (fun s => mkey s =? k) l.
Proof.
  induction l as [|x r IH]; simpl; [reflexivity|].
  rewrite filter_insert_desc. simpl. rewrite IH. reflexivity.
Qed.

(** ** First-seen lemmas *)

Lemma first_seen_aux_incl prev l : incl (first_seen_aux prev l) l.
Proof.
  revert prev; induction l as [|c r IH]; intros prev x; simpl; [tauto|].
  rewrite in_app_iff. intros [Hx|Hx].
  - destruct existsb; simpl in Hx; [contradiction|]. destruct Hx as [<-|[]]; now left.
  - right. eapply IH; eauto.
Qed.

Lemma first_seen_aux_fresh prev l e :
  In e (first_seen_aux prev l) ->
  forall p, In p prev -> sameValueZero (sessionId p) (sessionId e) = false.
Proof.
  revert prev; induction l as [|c r IH]; intros prev He p Hp; simpl in He; [contradiction|].
  apply in_app_iff in He as [He|He].
  - destruct existsb eqn:Hx; simpl in He; [contradiction|].
    destruct He as [<-|[]].
    destruct (sameValueZero (sessionId p) (sessionId c)) eqn:Hpc; [|reflexivity].
    rewrite <- Hx. symmetry. apply existsb_exists. eauto.
  - apply (IH (prev ++ [c])%list He). apply in_app_iff; now left.
Qed.

Lemma first_seen_aux_pairs prev l : ForallOrdPairs distinct_ids (first_seen_aux prev l).
Proof.
  revert prev; induction l as [|c r IH]; intro prev; simpl; [constructor|].
  destruct existsb; simpl; [apply IH|].
  constructor; [|apply IH].
  apply Forall_forall. intros e He. unfold distinct_ids.
  apply (first_seen_aux_fresh (prev ++ [c]) r e He). apply in_app_iff; right; now left.
Qed.

Lemma ForallOrdPairs_perm (l l' : list ChatSession) :
  Permutation l l' -> ForallOrdPairs distinct_ids l -> ForallOrdPairs distinct_ids l'.
Proof.
  induction 1 as [|x l l' Hp IH|x y l|l l' l'' _ IH1 _ IH2]; intro H; auto.
  - inversion H as [|? ? Hx Hl]; subst. constructor; [|auto].
    eapply Permutation_Forall; eauto.
  - inversion H as [|? ? Hy Hl]; subst. inversion Hl as [|? ? Hx Hl']; subst.
    inversion Hy as [|? ? Hyx Hyl]; subst.
    constructor; [constructor; [|exact Hx]|constructor; assumption].
    unfold distinct_ids in *. rewrite sameValueZero_sym. exact Hyx.
Qed.

(** ** Search lemmas *)

Lemma match_messages_spec ms q acc :
  forallb (fun m => is_string (content m)) ms = true ->
  match_messages ms (lower q) acc = Ok (acc ++ filter (message_matches q) ms)%list.
Proof.
  revert acc; induction ms as [|m r IH]; intros acc H; simpl in *.
  - rewrite app_nil_r; reflexivity.
  - apply andb_prop in H as [Hm Hr].
    destruct (content m) eqn:Hc; try discriminate. simpl.
    rewrite IH by exact Hr. unfold message_matches. rewrite Hc. simpl.
    destruct (includes (lower s) (lower q)); [rewrite <- app_assoc|]; reflexivity.
Qed.

Lemma length_filter_pos {A} (f : A -> bool) l :
  (0 <? length (filter f l))%nat = existsb f l.
Proof.
  induction l as [|x r IH]; simpl; [reflexivity|].
  destruct (f x); simpl; [reflexivity|exact IH].
Qed.

Lemma search_loop_spec ss q acc :
  Forall (fun s => well_typed s = true) ss ->
  search_loop ss (lower q) acc =
  Ok (acc ++ map (fun s => (s, filter (message_matches q) (messages s)))
                 (filter (session_matches q) ss))%list.
Proof.
  intro H; revert acc; induction H as [|s r Hs _ IH]; intro acc; simpl.
  - rewrite app_nil_r; reflexivity.
  - unfold well_typed in Hs. apply andb_prop in Hs as [Ht Hm].
    destruct (title s) eqn:Htl; try discriminate. simpl.
    rewrite match_messages_spec by exact Hm. simpl.
    rewrite IH, length_filter_pos. unfold session_matches. rewrite Htl. simpl.
    destruct (includes (lower s0) (lower q) || existsb (message_matches q) (messages s));
      simpl; [rewrite <- app_assoc|]; reflexivity.
Qed.

Lemma includes_empty s : includes s "" = true.
Proof. destruct s; reflexivity. Qed.

(** ** Provenance of messages *)

Lemma candidates_from_extraction env wss t :
  Forall from_extraction (candidates env wss t).
Proof.
  revert t; induction wss as [|ws r IH]; intro t; simpl; [constructor|].
  pose proof (extractSessionsFromSqlite_ok env ws t) as Hdb.
  destruct (extractSessionsFromSqlite env ws t) as [[dbs|e] t']; [|contradiction].
  apply Forall_app; split; [|apply Forall_app; split; [|apply IH]].
  - apply Forall_forall. intros s Hs. apply in_flat_map in Hs as [fp [_ Hs]].
    destruct (parseSessionFromFile env fp ws) eqn:Hp; [|contradiction].
    destruct Hs as [<-|[]]. eapply parseSessionFromFile_msgs; eauto.
  - eapply Forall_impl; [|exact Hdb]. intros s [_ H]; exact H.
Qed.

Lemma getAllSessions_perm env :
  Permutation (getAllSessions env)
    (first_seen (filter nonempty (candidates env (discoverWorkspaces env) 0))).
Proof.
  unfold getAllSessions. fold (aggregated env).
  rewrite sort_sessions_perm, aggregated_first_seen. reflexivity.
Qed.

Lemma getAllSessions_in env s :
  In s (getAllSessions env) ->
  In s (candidates env (discoverWorkspaces env) 0) /\ nonempty s = true.
Proof.
  intro H. eapply Permutation_in in H; [|apply getAllSessions_perm].
  apply first_seen_aux_incl, filter_In in H. exact H.
Qed.

(** * Lemmas for the further properties *)
(** ** HTML escaping *)

Lemma str_app_assoc (a b c : string) : (a ++ b) ++ c = a ++ (b ++ c).
Proof. induction a as [|x a IH]; simpl; [reflexivity|rewrite IH; reflexivity]. Qed.

Lemma replace_char_app c r a b :
  replace_char c r (a ++ b) = replace_char c r a ++ replace_char c r b.
Proof.
  induction a as [|x a IH]; simpl; [reflexivity|].
  destruct (Ascii.eqb x c); rewrite IH; [rewrite str_app_assoc|]; reflexivity.
Qed.

Lemma replace_char_cons c r x s :
  replace_char c r (String x s) =
  (if Ascii.eqb x c then r else String x "") ++ replace_char c r s.
Proof. simpl. destruct (Ascii.eqb x c); reflexivity. Qed.

Lemma escapeHtml_cons c s : escapeHtml (String c s) = esc1 c ++ escapeHtml s.
Proof.
  unfold escapeHtml. rewrite replace_char_cons, !replace_char_app.
  f_equal.
  unfold esc1.
  destruct (Ascii.eqb c "&") eqn:E1; [reflexivity|].
  simpl. destruct (Ascii.eqb c "<") eqn:E2; [reflexivity|].
  simpl. destruct (Ascii.eqb c ">") eqn:E3; [reflexivity|].
  simpl. destruct (Ascii.eqb c dquote) eqn:E4; reflexivity.
Qed.

Lemma escapeHtml_esc_all s : escapeHtml s = esc_all s.
Proof.
  induction s as [|c s IH]; [reflexivity|].
  rewrite escapeHtml_cons, IH. reflexivity.
Qed.

Lemma list_ascii_app (a b : string) :
  list_ascii_of_string (a ++ b) = (list_ascii_of_string a ++ list_ascii_of_string b)%list.
Proof. induction a as [|x a IH]; simpl; [reflexivity|rewrite IH; reflexivity]. Qed.

Lemma eqb_false_ne (a b : ascii) : Ascii.eqb a b = false -> a <> b.
Proof. intros H E; subst; rewrite Ascii.eqb_refl in H; discriminate. Qed.

Lemma esc1_prefix c1 c2 x y : esc1 c1 ++ x = esc1 c2 ++ y -> c1 = c2 /\ x = y.
Proof.
  unfold esc1; intro H.
  destruct (Ascii.eqb c1 "&") eqn:A1; [apply Ascii.eqb_eq in A1; subst c1|];
  [|destruct (Ascii.eqb c1 "<") eqn:A2; [apply Ascii.eqb_eq in A2; subst c1|];
    [|destruct (Ascii.eqb c1 ">") eqn:A3; [apply Ascii.eqb_eq in A3; subst c1|];
      [|destruct (Ascii.eqb c1 dquote) eqn:A4; [apply Ascii.eqb_eq in A4; subst c1|]]]];
  (destruct (Ascii.eqb c2 "&") eqn:B1; [apply Ascii.eqb_eq in B1; subst c2|];
  [|destruct (Ascii.eqb c2 "<") eqn:B2; [apply Ascii.eqb_eq in B2; subst c2|];
    [|destruct (Ascii.eqb c2 ">") eqn:B3; [apply Ascii.eqb_eq in B3; subst c2|];
      [|destruct (Ascii.eqb c2 dquote) eqn:B4; [apply Ascii.eqb_eq in B4; subst c2|]]]]);
  simpl in H; inversion H; subst; auto; simpl in *; try discriminate.
Qed.

Lemma esc1_nonempty c : esc1 c <> "".
Proof.
  unfold esc1. destruct (Ascii.eqb c "&"); [discriminate|].
  destruct (Ascii.eqb c "<"); [discriminate|].
  destruct (Ascii.eqb c ">"); [discriminate|].
  destruct (Ascii.eqb c dquote); discriminate.
Qed.

Lemma esc1_chars c x :
  In x (list_ascii_of_string (esc1 c)) -> x <> "<"%char /\ x <> ">"%char /\ x <> dquote.
Proof.
  unfold esc1.
  destruct (Ascii.eqb c "&"); [simpl; intros H; repeat destruct H as [<-|H];
    try contradiction; repeat split; discriminate|].
  destruct (Ascii.eqb c "<") eqn:E2; [simpl; intros H; repeat destruct H as [<-|H];
    try contradiction; repeat split; discriminate|].
  destruct (Ascii.eqb c ">") eqn:E3; [simpl; intros H; repeat destruct H as [<-|H];
    try contradiction; repeat split; discriminate|].
  destruct (Ascii.eqb c dquote) eqn:E4; [simpl; intros H; repeat destruct H as [<-|H];
    try contradiction; repeat split; discriminate|].
  simpl; intros [<-|[]].
  repeat split; apply eqb_false_ne; assumption.
Qed.

Lemma esc1_plain c :
  c <> "&"%char -> c <> "<"%char -> c <> ">"%char -> c <> dquote -> esc1 c = String c "".
Proof.
  intros H1 H2 H3 H4. unfold esc1.
  destruct (Ascii.eqb_spec c "&"); [contradiction|].
  destruct (Ascii.eqb_spec c "<"); [contradiction|].
  destruct (Ascii.eqb_spec c ">"); [contradiction|].
  destruct (Ascii.eqb_spec c dquote); [contradiction|reflexivity].
Qed.

(** ** File name sanitising *)

Lemma sanitizeFilename_s6 name m :
  sanitizeFilename name m =
  match sanitize_s6 name m with
  | [] => "untitled"
  | _ => string_of_list_ascii (sanitize_s6 name m)
  end.
Proof. unfold sanitizeFilename, sanitize_s6, sanitize_s5. destruct (_ <? _); reflexivity. Qed.

Lemma us_not_forbidden : is_forbidden us = false.
Proof. reflexivity. Qed.

Lemma us_not_ws : is_ws us = false.
Proof. reflexivity. Qed.

Lemma is_us_eq c : is_us c = true -> c = us.
Proof. unfold is_us; apply Ascii.eqb_eq. Qed.

Lemma replace_runs_in p b l c :
  In c (replace_runs p b l) -> c = us \/ (In c l /\ p c = false).
Proof.
  revert b; induction l as [|x r IH]; intros b H; simpl in *; [contradiction|].
  destruct (p x) eqn:Hp; [destruct b|].
  - apply IH in H as [H|[H1 H2]]; auto.
  - destruct H as [<-|H]; [auto|]. apply IH in H as [H|[H1 H2]]; auto.
  - destruct H as [<-|H]; [auto|]. apply IH in H as [H|[H1 H2]]; auto.
Qed.

Lemma replace_runs_us_free b l :
  uu_free (replace_runs is_us b l) = true /\
  (b = true -> hd_error (replace_runs is_us b l) <> Some us).
Proof.
  revert b; induction l as [|x r IH]; intro b; simpl; [split; [reflexivity|discriminate]|].
  destruct (is_us x) eqn:Hx; [destruct b|].
  - apply IH.
  - destruct (IH true) as [H1 H2]. split; [|discriminate].
    specialize (H2 eq_refl).
    destruct (replace_runs is_us true r) as [|d r'] eqn:E; [reflexivity|].
    simpl in *. rewrite H1, andb_true_r.
    destruct (is_us d) eqn:Hd; [apply is_us_eq in Hd; subst; contradiction|].
    reflexivity.
  - destruct (IH false) as [H1 _]. split.
    + destruct (replace_runs is_us false r); [reflexivity|].
      simpl in *. rewrite Hx, H1. reflexivity.
    + intros _ E; inversion E; subst. discriminate.
Qed.

Lemma drop_while_suffix p l : exists a, l = (a ++ drop_while p l)%list.
Proof.
  induction l as [|x r [a IH]]; simpl; [exists []; reflexivity|].
  destruct (p x); [exists (x :: a); simpl; f_equal; exact IH|exists []; reflexivity].
Qed.

Lemma drop_while_end_prefix p l : exists b, l = (drop_while_end p l ++ b)%list.
Proof.
  destruct (drop_while_suffix p (rev l)) as [a Ha].
  exists (rev a). unfold drop_while_end.
  rewrite <- rev_app_distr, <- Ha, rev_involutive. reflexivity.
Qed.

Lemma drop_while_hd p l c : hd_error (drop_while p l) = Some c -> p c = false.
Proof.
  induction l as [|x r IH]; simpl; [discriminate|].
  destruct (p x) eqn:Hp; [exact IH|]. intro H; inversion H; subst; exact Hp.
Qed.

Lemma drop_while_app p a c b :
  p c = false -> drop_while p (a ++ c :: b) = (drop_while p a ++ c :: b)%list.
Proof.
  intro Hc. induction a as [|x a IH]; simpl; [rewrite Hc; reflexivity|].
  destruct (p x); [exact IH|reflexivity].
Qed.

Lemma drop_while_end_cons p c l :
  p c = false -> drop_while_end p (c :: l) = c :: drop_while_end p l.
Proof.
  intro Hc. unfold drop_while_end. simpl. rewrite drop_while_app by exact Hc.
  rewrite rev_app_distr. reflexivity.
Qed.

Lemma uu_free_app a b : uu_free (a ++ b) = true -> uu_free a = true /\ uu_free b = true.
Proof.
  induction a as [|x a IH]; simpl; intro H; [split; [reflexivity|exact H]|].
  destruct a as [|y a].
  - simpl in H. split; [reflexivity|].
    destruct b as [|y b]; [reflexivity|]. apply andb_prop in H as [_ H]; exact H.
  - simpl in H. apply andb_prop in H as [H1 H2].
    destruct (IH H2) as [IH1 IH2]. split; [|exact IH2].
    simpl. rewrite H1. exact IH1.
Qed.

Lemma uu_free_infix a l b : uu_free (a ++ l ++ b) = true -> uu_free l = true.
Proof. intro H. apply uu_free_app in H as [_ H]. apply uu_free_app in H as [H _]. exact H. Qed.

Lemma strip_us_ends l :
  hd_error l <> Some us ->
  hd_error (drop_while_end is_us l) <> Some us /\
  hd_error (rev (drop_while_end is_us l)) <> Some us.
Proof.
  intro Hl. split.
  - destruct l as [|c l]; [discriminate|].
    simpl in Hl. destruct (is_us c) eqn:Hc; [apply is_us_eq in Hc; subst; contradiction|].
    rewrite drop_while_end_cons by exact Hc. simpl. exact Hl.
  - unfold drop_while_end. rewrite rev_involutive. intro H.
    apply drop_while_hd in H. discriminate.
Qed.

Lemma hd_firstn_ne {A} n (l : list A) x :
  hd_error l <> Some x -> hd_error (firstn n l) <> Some x.
Proof. destruct n, l; simpl; auto; discriminate. Qed.

Lemma drop_while_hd_ne l : hd_error (drop_while is_us l) <> Some us.
Proof. intro H; apply drop_while_hd in H; discriminate. Qed.

Lemma length_drop_while_end p l : (length (drop_while_end p l) <= length l)%nat.
Proof.
  destruct (drop_while_end_prefix p l) as [b Hb].
  rewrite Hb at 2. rewrite length_app. lia.
Qed.

Lemma sanitize_s3_props name :
  let s3 := replace_runs is_us false (replace_runs is_ws false
              (map (fun c => if is_forbidden c then us else c) (list_ascii_of_string name))) in
  (forall c, In c s3 -> is_forbidden c = false /\ is_ws c = false) /\ uu_free s3 = true.
Proof.
  intro s3. split; [|apply replace_runs_us_free].
  intros c Hc. apply replace_runs_in in Hc as [->|[Hc _]]; [split; reflexivity|].
  apply replace_runs_in in Hc as [->|[Hc Hw]]; [split; reflexivity|].
  split; [|exact Hw].
  apply in_map_iff in Hc as [x [<- _]].
  destruct (is_forbidden x) eqn:Hf; [reflexivity|exact Hf].
Qed.

(** Infixes keep the characters and the underscore rule. *)
Lemma clean_chars_infix (P : ascii -> Prop) a l b :
  (forall c, In c (a ++ l ++ b) -> P c) -> forall c, In c l -> P c.
Proof. intros H c Hc. apply H, in_or_app; right; apply in_or_app; left; exact Hc. Qed.

Lemma sanitize_s6_clean name m : clean (sanitize_s6 name m).
Proof.
  pose proof (sanitize_s3_props name) as [Hch Huu]. cbv zeta in Hch, Huu.
  set (s3 := replace_runs is_us false _) in *.
  assert (H5 : exists a b, s3 = (a ++ sanitize_s5 name ++ b)%list).
  { unfold sanitize_s5. fold s3.
    destruct (drop_while_suffix is_ws s3) as [a1 E1].
    destruct (drop_while_end_prefix is_ws (drop_while is_ws s3)) as [b1 F1].
    set (s4 := drop_while_end is_ws (drop_while is_ws s3)) in *.
    destruct (drop_while_suffix is_us s4) as [a2 E2].
    destruct (drop_while_end_prefix is_us (drop_while is_us s4)) as [b2 F2].
    exists (a1 ++ a2)%list, (b2 ++ b1)%list.
    rewrite E1 at 1. rewrite F1 at 1. rewrite E2 at 1. rewrite F2 at 1.
    rewrite !app_assoc. reflexivity. }
  destruct H5 as (a & b & E5).
  assert (Hhd5 : hd_error (sanitize_s5 name) <> Some us /\
                 hd_error (rev (sanitize_s5 name)) <> Some us).
  { unfold sanitize_s5. apply strip_us_ends, drop_while_hd_ne. }
  unfold sanitize_s6.
  destruct (m <? Z.of_nat (length (sanitize_s5 name))).
  - set (f := firstn (Z.to_nat m) (sanitize_s5 name)).
    destruct (drop_while_end_prefix is_us f) as [b' Hb'].
    assert (Ei : s3 = (a ++ drop_while_end is_us f ++
                       (b' ++ skipn (Z.to_nat m) (sanitize_s5 name) ++ b))%list).
    { rewrite E5, <- (firstn_skipn (Z.to_nat m) (sanitize_s5 name)) at 1.
      fold f. rewrite Hb' at 1. rewrite <- !app_assoc. reflexivity. }
    rewrite Ei in Hch, Huu.
    split; [exact (clean_chars_infix _ _ _ _ Hch)|].
    split; [exact (uu_free_infix _ _ _ Huu)|].
    apply strip_us_ends, hd_firstn_ne, (proj1 Hhd5).
  - rewrite E5 in Hch, Huu.
    split; [exact (clean_chars_infix _ _ _ _ Hch)|].
    split; [exact (uu_free_infix _ _ _ Huu)|exact Hhd5].
Qed.

Lemma sanitize_s6_length name m :
  sanitize_s6 name m = [] \/ Z.of_nat (length (sanitize_s6 name m)) <= m.
Proof.
  unfold sanitize_s6. destruct (m <? Z.of_nat (length (sanitize_s5 name))) eqn:Hm.
  - destruct (drop_while_end is_us (firstn (Z.to_nat m) (sanitize_s5 name))) as [|c l] eqn:E;
      [left; reflexivity|right].
    pose proof (length_drop_while_end is_us (firstn (Z.to_nat m) (sanitize_s5 name))) as H.
    rewrite E in H. rewrite length_firstn in H.
    assert (0 < Z.to_nat m)%nat by (simpl in H; lia). lia.
  - right. apply Z.ltb_ge in Hm. exact Hm.
Qed.

Lemma untitled_clean : clean (list_ascii_of_string "untitled").
Proof.
  split; [|split; [reflexivity|split; discriminate]].
  intros c Hc. simpl in Hc. repeat destruct Hc as [<-|Hc]; try contradiction; split; reflexivity.
Qed.

Lemma sanitizeFilename_clean name m :
  clean (list_ascii_of_string (sanitizeFilename name m)).
Proof.
  rewrite sanitizeFilename_s6. destruct (sanitize_s6 name m) as [|c l] eqn:E;
    [exact untitled_clean|].
  rewrite list_ascii_of_string_of_list_ascii, <- E. apply sanitize_s6_clean.
Qed.

(** Each step is the identity on a clean name. *)
Lemma replace_runs_id p b l :
  (forall c, In c l -> p c = false) -> replace_runs p b l = l.
Proof.
  revert b; induction l as [|x r IH]; intros b H; simpl; [reflexivity|].
  rewrite (H x (or_introl eq_refl)). f_equal. apply IH. intros c Hc; apply H; right; exact Hc.
Qed.

Lemma replace_runs_us_id l :
  uu_free l = true ->
  replace_runs is_us false l = l /\ (hd_error l <> Some us -> replace_runs is_us true l = l).
Proof.
  induction l as [|x r IH]; intro H; [split; reflexivity|].
  assert (Hr : uu_free r = true) by (destruct r; [reflexivity|apply andb_prop in H as [_ H]; exact H]).
  destruct (IH Hr) as [IH1 IH2].
  simpl. destruct (is_us x) eqn:Hx.
  - apply is_us_eq in Hx; subst x. split; [|intro C; contradiction C; reflexivity].
    f_equal. apply IH2. destruct r as [|d r]; [discriminate|].
    simpl in *. apply andb_prop in H as [H _].
    destruct (is_us d) eqn:Hd; [discriminate|]. intro E; inversion E; subst; discriminate.
  - rewrite IH1. split; reflexivity.
Qed.

Lemma drop_while_id p l : match l with [] => True | c :: _ => p c = false end ->
  drop_while p l = l.
Proof. destruct l as [|c r]; simpl; [reflexivity|intros ->; reflexivity]. Qed.

Lemma drop_while_end_id p l :
  match rev l with [] => True | c :: _ => p c = false end -> drop_while_end p l = l.
Proof. intro H. unfold drop_while_end. rewrite drop_while_id by exact H. apply rev_involutive. Qed.

Lemma sanitize_clean_id l m :
  clean l -> l <> [] -> Z.of_nat (length l) <= m ->
  sanitizeFilename (string_of_list_ascii l) m = string_of_list_ascii l.
Proof.
  intros (Hch & Huu & Hhd & Htl) Hne Hlen.
  unfold sanitizeFilename. rewrite list_ascii_of_string_of_list_ascii.
  rewrite (map_ext_in _ (fun c => c)) by
    (intros c Hc; rewrite (proj1 (Hch c Hc)); reflexivity).
  rewrite map_id.
  rewrite (replace_runs_id is_ws false l) by (intros c Hc; exact (proj2 (Hch c Hc))).
  rewrite (proj1 (replace_runs_us_id l Huu)).
  assert (Hw1 : drop_while is_ws l = l).
  { apply drop_while_id. destruct l as [|c r]; [exact I|exact (proj2 (Hch c (or_introl eq_refl)))]. }
  assert (Hw2 : drop_while_end is_ws l = l).
  { apply drop_while_end_id. destruct (rev l) as [|c r] eqn:E; [exact I|].
    apply Hch. apply in_rev. rewrite E. left; reflexivity. }
  assert (Hu1 : drop_while is_us l = l).
  { apply drop_while_id. destruct l as [|c r]; [exact I|].
    destruct (is_us c) eqn:Hc; [apply is_us_eq in Hc; subst; contradiction Hhd; reflexivity|reflexivity]. }
  assert (Hu2 : drop_while_end is_us l = l).
  { apply drop_while_end_id. destruct (rev l) as [|c r] eqn:E; [exact I|].
    destruct (is_us c) eqn:Hc; [apply is_us_eq in Hc; subst; contradiction Htl; reflexivity|reflexivity]. }
  rewrite Hw1, Hw2, Hu1, Hu2.
  destruct (m <? Z.of_nat (length l)) eqn:Hm; [apply Z.ltb_lt in Hm; lia|].
  destruct l; [contradiction|reflexivity].
Qed.

Lemma length_string_of_list_ascii l : String.length (string_of_list_ascii l) = length l.
Proof. induction l as [|c l IH]; simpl; [reflexivity|rewrite IH; reflexivity]. Qed.

Lemma uu_free_no_pair l a b : uu_free l = true -> l <> (a ++ us :: us :: b)%list.
Proof. intros H E; subst l. apply uu_free_app in H as [_ H]. discriminate H. Qed.

(** ** Sidebar grouping *)

Lemma existsb_eqb_in k ks : existsb (String.eqb k) ks = true <-> In k ks.
Proof.
  rewrite existsb_exists. split.
  - intros [x [Hx E]]. apply String.eqb_eq in E; subst; exact Hx.
  - intro H. exists k. split; [exact H|apply String.eqb_refl].
Qed.

Lemma add_key_nodup k ks : NoDup ks -> NoDup (add_key k ks).
Proof.
  intro H. unfold add_key. destruct (existsb (String.eqb k) ks) eqn:E; [exact H|].
  apply (Permutation_NoDup (Permutation_cons_append ks k)).
  constructor; [|exact H]. intro Hk. apply existsb_eqb_in in Hk. congruence.
Qed.

Lemma add_key_in x k ks : In x (add_key k ks) <-> In x ks \/ x = k.
Proof.
  unfold add_key. destruct (existsb (String.eqb k) ks) eqn:E.
  - apply existsb_eqb_in in E. split; [tauto|intros [H| ->]; assumption].
  - rewrite in_app_iff. simpl. split.
    + intros [H|[H|[]]]; [left; exact H|right; symmetry; exact H].
    + intros [H|H]; [left; exact H|right; left; symmetry; exact H].
Qed.

Lemma filter_none {A} (f : A -> bool) l : (forall x, In x l -> f x = false) -> filter f l = [].
Proof.
  induction l as [|x r IH]; intro H; simpl; [reflexivity|].
  rewrite (H x (or_introl eq_refl)). apply IH. intros y Hy; apply H; right; exact Hy.
Qed.

Lemma map_push_map k s ks (f g : string -> list ChatSession) :
  NoDup ks ->
  (forall k', k' <> k -> g k' = f k') ->
  (In k ks -> g k = (f k ++ [s])%list) ->
  (~ In k ks -> g k = [s]) ->
  map_push k s (map (fun k' => (k', f k')) ks) = map (fun k' => (k', g k')) (add_key k ks).
Proof.
  intros Hnd Hne Hin Hout. induction ks as [|k0 ks IH]; simpl.
  - unfold add_key. simpl. rewrite Hout by (intros []). reflexivity.
  - inversion Hnd as [|? ? Hk0 Hnd']; subst.
    unfold add_key. simpl. destruct (String.eqb k k0) eqn:E.
    + apply String.eqb_eq in E; subst k0. simpl. f_equal.
      * rewrite Hin by (left; reflexivity). reflexivity.
      * apply map_ext_in. intros k' Hk'. rewrite Hne; [reflexivity|].
        intro; subst; contradiction.
    + apply String.eqb_neq in E.
      assert (IH' : map_push k s (map (fun k' => (k', f k')) ks) =
                    map (fun k' => (k', g k')) (add_key k ks)).
      { apply IH; [exact Hnd'| |].
        - intro H; apply Hin; right; exact H.
        - intro H; apply Hout. intros [H'|H']; [subst; contradiction|contradiction]. }
      unfold add_key in IH'.
      destruct (existsb (String.eqb k) ks); simpl;
        rewrite Hne by (intro; subst; contradiction); f_equal; exact IH'.
Qed.

Lemma group_fold p l ks :
  NoDup ks -> (forall s, In s p -> In (workspaceName s) ks) ->
  fold_left (fun m s => map_push (workspaceName s) s m) l
            (map (fun k => (k, filter (in_ws k) p)) ks) =
  map (fun k => (k, filter (in_ws k) (p ++ l))) 
      (fold_left (fun ks s => add_key (workspaceName s) ks) l ks).
Proof.
  revert p ks; induction l as [|s r IH]; intros p ks Hnd Hcov; simpl.
  - rewrite app_nil_r. reflexivity.
  - rewrite (map_push_map (workspaceName s) s ks _ (fun k => filter (in_ws k) (p ++ [s]))).
    + replace (p ++ s :: r)%list with ((p ++ [s]) ++ r)%list by (rewrite <- app_assoc; reflexivity).
      apply IH; [apply add_key_nodup, Hnd|].
      intros x Hx. apply add_key_in. apply in_app_or in Hx as [Hx|[<-|[]]]; [left; apply Hcov, Hx|right; reflexivity].
    + exact Hnd.
    + intros k' Hk'. rewrite filter_app. simpl. unfold in_ws at 2.
      destruct (String.eqb_spec (workspaceName s) k'); [congruence|apply app_nil_r].
    + intros _. rewrite filter_app. simpl. unfold in_ws at 2. rewrite String.eqb_refl. reflexivity.
    + intro Hk. rewrite filter_app, filter_none; simpl; unfold in_ws at 1; [rewrite String.eqb_refl; reflexivity|].
      intros x Hx. unfold in_ws. apply String.eqb_neq. intro E; apply Hk; rewrite <- E; apply Hcov, Hx.
Qed.

Lemma group_by_workspace_eq l :
  group_by_workspace l = map (fun k => (k, filter (in_ws k) l)) (keys_of l).
Proof.
  unfold group_by_workspace, keys_of. apply (group_fold [] l []); [constructor|intros s []].
Qed.

Lemma keys_fold_nodup l ks :
  NoDup ks -> NoDup (fold_left (fun ks s => add_key (workspaceName s) ks) l ks).
Proof.
  revert ks; induction l as [|s r IH]; intros ks H; simpl; [exact H|].
  apply IH, add_key_nodup, H.
Qed.

Lemma keys_fold_in k l ks :
  In k (fold_left (fun ks s => add_key (workspaceName s) ks) l ks) <->
  In k ks \/ exists s, In s l /\ workspaceName s = k.
Proof.
  revert ks; induction l as [|s r IH]; intros ks; simpl.
  - split; [tauto|intros [H|[s [[] _]]]; exact H].
  - rewrite IH, add_key_in. split.
    + intros [[H|H]|[s' [H1 H2]]]; [tauto|right; exists s; auto|right; exists s'; auto].
    + intros [H|[s' [[<-|H1] H2]]]; [tauto|left; right; auto|right; exists s'; auto].
Qed.

Lemma keys_of_nodup l : NoDup (keys_of l).
Proof. apply keys_fold_nodup. constructor. Qed.

Lemma keys_of_in k l : In k (keys_of l) <-> exists s, In s l /\ workspaceName s = k.
Proof. unfold keys_of. rewrite keys_fold_in. split; [intros [[]|H]; exact H|tauto]. Qed.

Lemma map_push_perm k s m :
  Permutation (concat (map snd (map_push k s m))) (concat (map snd m) ++ [s]).
Proof.
  induction m as [|[k' ss] r IH]; simpl; [reflexivity|].
  destruct (String.eqb k k'); simpl.
  - rewrite <- !app_assoc. apply Permutation_app_head, Permutation_app_comm.
  - rewrite IH, app_assoc. reflexivity.
Qed.

Lemma group_by_workspace_perm l : Permutation (concat (map snd (group_by_workspace l))) l.
Proof.
  unfold group_by_workspace.
  assert (H : forall m, Permutation
            (concat (map snd (fold_left (fun m s => map_push (workspaceName s) s m) l m)))
            (concat (map snd m) ++ l)).
  { induction l as [|s r IH]; intro m; simpl; [rewrite app_nil_r; reflexivity|].
    rewrite IH, map_push_perm, <- app_assoc. reflexivity. }
  rewrite H. reflexivity.
Qed.

Lemma latest_le_total a b : latest_le a b = false -> latest_le b a = true.
Proof. destruct a, b; simpl; try discriminate; auto. intro H; apply Z.leb_gt in H; apply Z.leb_le; lia. Qed.

Lemma latest_le_trans a b c : latest_le a b = true -> latest_le b c = true -> latest_le a c = true.
Proof.
  destruct a, b, c; simpl; auto; try discriminate.
  intros H1 H2; apply Z.leb_le in H1, H2; apply Z.leb_le; lia.
Qed.

Lemma insert_group_perm g l : Permutation (insert_group g l) (g :: l).
Proof.
  induction l as [|h r IH]; simpl; [reflexivity|].
  destruct (latest_le _ _); [reflexivity|]. rewrite IH. apply perm_swap.
Qed.

Lemma sort_groups_perm l : Permutation (sort_groups l) l.
Proof.
  induction l as [|g r IH]; simpl; [reflexivity|]. rewrite insert_group_perm, IH; reflexivity.
Qed.

Lemma insert_group_hdrel g h l : HdRel gdesc h l -> gdesc h g -> HdRel gdesc h (insert_group g l).
Proof.
  intros Hh Hhg; destruct l as [|z r]; simpl; [now constructor|].
  destruct (latest_le _ _); constructor; [exact Hhg|]. inversion Hh; assumption.
Qed.

Lemma insert_group_sorted g l : Sorted gdesc l -> Sorted gdesc (insert_group g l).
Proof.
  induction l as [|h r IH]; simpl; intro Hs; [now repeat constructor|].
  destruct (latest_le (latest (snd h)) (latest (snd g))) eqn:Hhg.
  - constructor; [exact Hs|]. constructor. exact Hhg.
  - inversion Hs as [|? ? Hr Hh]; subst.
    constructor; [now apply IH|].
    apply insert_group_hdrel; [exact Hh|]. apply latest_le_total, Hhg.
Qed.

Lemma sort_groups_sorted l : StronglySorted gdesc (sort_groups l).
Proof.
  apply Sorted_StronglySorted.
  - intros a b c H1 H2. unfold gdesc in *. eapply latest_le_trans; eauto.
  - induction l as [|g r IH]; simpl; [constructor|]. now apply insert_group_sorted.
Qed.

Lemma map_child_concat (G : list (string * list ChatSession)) sessions b m :
  concat (map (fun it => getChildren sessions b m (Some it))
              (map (fun g => WorkspaceTreeItem (fst g) (snd g)) G)) =
  map ChatSessionTreeItem (concat (map snd G)).
Proof.
  induction G as [|g r IH]; simpl; [reflexivity|]. rewrite map_app. f_equal. exact IH.
Qed.

(** ** Search errors *)

Lemma match_messages_throw ms lq acc :
  forallb (fun m => is_string (content m)) ms = false ->
  match_messages ms lq acc = Throw TypeError.
Proof.
  revert acc; induction ms as [|m r IH]; intros acc H; simpl in *; [discriminate|].
  destruct (content m); simpl in *; try reflexivity. apply IH, H.
Qed.

Lemma match_messages_ok ms lq acc :
  forallb (fun m => is_string (content m)) ms = true ->
  exists r, match_messages ms lq acc = Ok r.
Proof.
  revert acc; induction ms as [|m r IH]; intros acc H; simpl in *; [eauto|].
  apply andb_prop in H as [Hm Hr].
  destruct (content m); try discriminate. simpl. apply IH, Hr.
Qed.

Lemma search_loop_throw ok s rest lq acc :
  Forall (fun s => well_typed s = true) ok -> well_typed s = false ->
  search_loop (ok ++ s :: rest) lq acc = Throw TypeError.
Proof.
  intros Hok Hs. revert acc; induction Hok as [|s' r Hs' _ IH]; intro acc; simpl.
  - unfold well_typed in Hs. destruct (title s); simpl; try reflexivity.
    simpl in Hs. rewrite match_messages_throw by exact Hs. reflexivity.
  - unfold well_typed in Hs'. apply andb_prop in Hs' as [Ht Hm].
    destruct (title s'); try discriminate. simpl.
    destruct (match_messages_ok (messages s') (lq) [] Hm) as [ms ->]. simpl. apply IH.
Qed.

(** ** Message lists *)

Lemma get_ok (d : jsval) k : d <> JUndef -> d <> JNull -> exists v, get d k = Ok v.
Proof. intros H1 H2. destruct d; simpl; try contradiction; eauto. Qed.

Lemma scan_containers_none d keys acc :
  d <> JUndef -> d <> JNull ->
  (forall k, In k keys -> forall items, get d k <> Ok (JArr items)) ->
  scan_containers d keys acc = Ok acc.
Proof.
  intros H1 H2. revert acc; induction keys as [|k ks IH]; intros acc H; simpl; [reflexivity|].
  destruct (get_ok d k H1 H2) as [v Hv]. rewrite Hv. simpl.
  destruct v; try (apply IH; intros k' Hk'; apply H; right; exact Hk').
  exfalso. apply (H k (or_introl eq_refl) items Hv).
Qed.

(** ** Titles *)

Lemma str_length_app (a b : string) : String.length (a ++ b) = (String.length a + String.length b)%nat.
Proof. induction a as [|c a IH]; simpl; [reflexivity|rewrite IH; reflexivity]. Qed.

Lemma substring_0_length n s : (String.length (substring 0 n s) <= n)%nat.
Proof.
  revert n; induction s as [|c s IH]; intro n; destruct n; simpl; try lia.
  specialize (IH n). lia.
Qed.

Lemma falsy_string_empty t : truthy (JStr t) = false -> t = "".
Proof. simpl. destruct (String.eqb_spec t ""); [auto|discriminate]. Qed.

(** ** File sessions *)

Lemma parseSessionFromFile_inv env fp ws s :
  parseSessionFromFile env fp ws = Some s ->
  exists mt, stat_mtime env fp = Some mt /\
    sessionId s = JStr (basename_ext fp ".json") /\ source s = SrcJson /\
    filePath s = Some fp /\ modifiedAt s = Some mt /\
    s_workspaceId s = workspaceId ws /\ workspaceName s = workspace_name ws /\
    projectPath s = ws_projectPath ws.
Proof.
  unfold parseSessionFromFile.
  destruct (read_json env fp) as [d|]; [|discriminate].
  intro H.
  match type of H with
  | match ?r with _ => _ end = _ => destruct r eqn:Er; [|discriminate]
  end.
  inversion H; subst; clear H.
  repeat (apply bind_ok in Er; destruct Er as [? [? Er]]).
  match goal with
  | H : match stat_mtime env fp with _ => _ end = Ok _ |- _ =>
      destruct (stat_mtime env fp) as [z|]; [inversion H; subst|discriminate]
  end.
  inversion Er; subst. eexists; repeat split; reflexivity.
Qed.

(** ** Database sessions *)

Lemma createSessionFromData_fields env d ms ws sid st sess :
  fst (createSessionFromData env d ms ws sid st) = Ok sess -> db_fields env ws sess.
Proof.
  destruct st as [t ss].
  unfold createSessionFromData, bindST, liftR, now, ret.
  destruct d; simpl; try discriminate;
  destruct (title_from_messages _ ms); simpl; try discriminate;
  intro H; inversion H; subst; repeat split; eexists; reflexivity.
Qed.

Section DbFields.

Variable env : Env.
Variable ws : WorkspaceInfo.

Lemma session_of_fields d (sid : ST string) :
  (forall t ss, snd (snd (sid (t, ss))) = ss) ->
  st_pres (db_fields env ws) (session_of env ws d sid).
Proof.
  intros Hsid t ss H. unfold session_of, bindST, liftR.
  destruct (parseMessages d) as [ms|e]; simpl; [|exact H].
  destruct (0 <? length ms)%nat; [|exact H].
  specialize (Hsid t ss).
  destruct (sid (t, ss)) as [[i|e] [t1 ss1]]; simpl in Hsid; subst ss1; [|exact H].
  pose proof (createSessionFromData_spec env d ms ws i t1 ss) as Hc.
  pose proof (createSessionFromData_fields env d ms ws i (t1, ss)) as Hf.
  destruct (createSessionFromData env d ms ws i (t1, ss)) as [[sess|e] [t2 ss2]];
    destruct Hc as [-> _]; [|exact H].
  unfold push; simpl. apply Forall_app; split; [exact H|].
  constructor; [apply Hf; reflexivity|constructor].
Qed.

Lemma db_array_loop_fields items i : st_pres (db_fields env ws) (db_array_loop env ws items i).
Proof.
  revert i; induction items as [|d r IH]; intro i; simpl; auto with stpres.
  apply st_pres_bind; auto.
  destruct (typeof_object d); auto with stpres.
  apply session_of_fields; reflexivity.
Qed.

Lemma db_entries_loop_fields es : st_pres (db_fields env ws) (db_entries_loop env ws es).
Proof.
  induction es as [|[sid sdata] r IH]; simpl; auto with stpres.
  apply st_pres_bind; auto.
  destruct (typeof_object sdata); auto with stpres.
  apply session_of_fields; reflexivity.
Qed.

Lemma processDbEntry_fields d : st_pres (db_fields env ws) (processDbEntry env d ws).
Proof.
  unfold processDbEntry. destruct (negb (truthy d)); auto with stpres.
  destruct d; auto with stpres.
  - apply db_array_loop_fields.
  - apply st_pres_bind; auto with stpres. intro ss.
    destruct (truthy ss).
    + destruct ss; auto with stpres. apply db_entries_loop_fields.
    + apply session_of_fields. intros t s0. reflexivity.
Qed.

Lemma rows_loop_fields rows : st_pres (db_fields env ws) (rows_loop env ws rows).
Proof.
  induction rows as [|[k v] r IH]; simpl; auto with stpres.
  apply st_pres_bind; auto. apply st_pres_catch.
  destruct v; auto with stpres. apply processDbEntry_fields.
Qed.

Lemma sqlite_body_fields p : st_pres (db_fields env ws) (sqlite_body env ws p).
Proof.
  unfold sqlite_body. apply st_pres_bind; [destruct (sqlite_driver env); auto with stpres|].
  intros _. apply st_pres_bind; [destruct (open_db _ _); auto with stpres|].
  intro h. apply st_pres_bind; [destruct (item_table h); auto with stpres|].
  intro rows. apply st_pres_bind; [apply rows_loop_fields|].
  intros _. destruct (close_ok h); auto with stpres.
Qed.

End DbFields.

(** ** Discovery *)

Lemma flat_map_opt {A B} (b : A -> bool) (f : A -> B) l :
  flat_map (fun x => if b x then [f x] else []) l = map f (filter b l).
Proof. induction l as [|x r IH]; simpl; [reflexivity|]. destruct (b x); simpl; rewrite IH; reflexivity. Qed.

Lemma length_filter_le {A} (b : A -> bool) l : (length (filter b l) <= length l)%nat.
Proof. induction l as [|x r IH]; simpl; [lia|]. destruct (b x); simpl; lia. Qed.

Lemma nodup_map_filter {A B} (g : A -> B) (b : A -> bool) l :
  NoDup (map g l) -> NoDup (map g (filter b l)).
Proof.
  induction l as [|x r IH]; simpl; intro H; [constructor|].
  inversion H as [|? ? Hx Hr]; subst.
  destruct (b x); simpl; [|apply IH, Hr].
  constructor; [|apply IH, Hr]. intro Hin. apply Hx.
  apply in_map_iff in Hin as [y [Hy Hin]]. apply filter_In in Hin as [Hin _].
  rewrite <- Hy. apply in_map, Hin.
Qed.

Lemma project_of_basename env p a b : project_of env p = Some (a, b) -> b = basename a.
Proof.
  unfold project_of. destruct (negb _); [discriminate|].
  destruct (read_json env p) as [d|]; [|discriminate].
  match goal with |- match ?r with _ => _ end = _ -> _ => destruct r as [o|] eqn:Er; [|discriminate] end.
  intro Ho; subst o.
  repeat (apply bind_ok in Er; destruct Er as [? [? Er]]).
  destruct (truthy _); [|discriminate].
  destruct (js_or _ _); try discriminate.
  apply bind_ok in Er as [dd [_ Er]]. inversion Er; reflexivity.
Qed.

Lemma in_discoverWorkspaces env ws :
  In ws (discoverWorkspaces env) ->
  exists vn sp ents, In (vn, sp) (getWorkspaceStoragePaths env) /\
    readdir_entries env sp = Some ents /\ In (workspaceId ws, true) ents /\
    In ws (workspace_of env sp (workspaceId ws)).
Proof.
  unfold discoverWorkspaces. intro H. apply in_flat_map in H as [[vn sp] [Hvp H]].
  simpl in H. destruct (readdir_entries env sp) as [ents|] eqn:Ee; [|contradiction].
  apply in_flat_map in H as [[name isdir] [He H]]. simpl in H.
  destruct isdir; [|contradiction].
  unfold workspace_of in H.
  destruct (_ || _) eqn:Hs; [|contradiction].
  destruct H as [<-|[]]. simpl.
  exists vn, sp, ents. split; [exact Hvp|split; [exact Ee|split; [exact He|]]].
  unfold workspace_of. rewrite Hs. left; reflexivity.
Qed.

(** ** Sorted lists *)

Lemma StronglySorted_map {A B} (R : A -> A -> Prop) (R' : B -> B -> Prop) (f : A -> B) l :
  (forall a b, R a b -> R' (f a) (f b)) -> StronglySorted R l -> StronglySorted R' (map f l).
Proof.
  intros HR H. induction H as [|a l Hl IH Hall]; simpl; constructor; [exact IH|].
  apply Forall_map. eapply Forall_impl; [|exact Hall]. intros b Hb; apply HR, Hb.
Qed.

(** * Claims *)

(** ** Aggregation *)

(** C1 (counterexample): in [env_two_files] the two transcripts both resolve
    to id [a]; the first one met (empty) is not kept, the later one is. *)
Lemma getAllSessions_first_seen_counterexample :
  let C := candidates env_two_files (discoverWorkspaces env_two_files) 0 in
  let dummy := sample_session "" "" [] in
  (map sessionId C = [JStr "a"; JStr "a"]) /\
  (messages (nth 0 C dummy) = []) /\
  (getAllSessions env_two_files = [nth 1 C dummy]).
Proof. vm_compute. repeat split; reflexivity. Qed.

(** C1 (amended): no two sessions in the output of [getAllSessions] have the
    same resolved [sessionId], and the output is, up to the final sort, the
    non-empty sessions met in aggregation order (any workspace, file or
    database) of which a session is kept exactly when no earlier non-empty
    one has its id: the first non-empty one wins and every later one is
    dropped. *)
Theorem getAllSessions_dedup (env : Env) :
  ForallOrdPairs distinct_ids (getAllSessions env) /\
  Permutation (getAllSessions env)
    (first_seen (filter nonempty (candidates env (discoverWorkspaces env) 0))).
Proof.
  split; [|apply getAllSessions_perm].
  eapply ForallOrdPairs_perm; [symmetry; apply getAllSessions_perm|].
  apply first_seen_aux_pairs.
Qed.

(** C2: every session output by [getAllSessions] has at least one message;
    empty sessions are removed before the id bookkeeping, so a non-empty
    session is output whenever every earlier session with its id was empty. *)
Theorem getAllSessions_nonempty (env : Env) :
  Forall (fun s => (1 <= length (messages s))%nat) (getAllSessions env) /\
  (forall pre s post,
     candidates env (discoverWorkspaces env) 0 = (pre ++ s :: post)%list ->
     nonempty s = true ->
     Forall (fun c => sameValueZero (sessionId c) (sessionId s) = true ->
                      nonempty c = false) pre ->
     In s (getAllSessions env)).
Proof.
  split.
  - apply Forall_forall. intros s Hs.
    destruct (getAllSessions_in env s Hs) as [_ Hn].
    unfold nonempty in Hn. apply Nat.ltb_lt in Hn. lia.
  - intros pre s post Hc Hs Hpre.
    eapply Permutation_in; [symmetry; apply getAllSessions_perm|].
    rewrite Hc, filter_app. simpl. rewrite Hs.
    unfold first_seen. rewrite first_seen_aux_app. simpl.
    apply in_app_iff; right. apply in_app_iff; left.
    replace (existsb _ _) with false; [now left|].
    symmetry. apply Bool.not_true_iff_false. intro Hex.
    apply existsb_exists in Hex as [c [Hc1 Hc2]].
    apply filter_In in Hc1 as [Hc1 Hnc].
    rewrite Forall_forall in Hpre. rewrite (Hpre c Hc1 Hc2) in Hnc. discriminate.
Qed.

(** Witness of C2: in [env_two_files] both transcripts resolve to id [a];
    the first is empty, and the second is still returned. *)
Lemma getAllSessions_nonempty_witness :
  In (nth 1 (candidates env_two_files (discoverWorkspaces env_two_files) 0)
          (sample_session "" "" []))
     (getAllSessions env_two_files).
Proof.
  apply (proj2 (getAllSessions_nonempty env_two_files)
           [nth 0 (candidates env_two_files (discoverWorkspaces env_two_files) 0)
                (sample_session "" "" [])] _ []).
  - vm_compute. reflexivity.
  - vm_compute. reflexivity.
  - constructor; [intros _; vm_compute; reflexivity|constructor].
Defined.

(** C3: [getAllSessions] returns the aggregated sessions reordered by
    [modifiedAt] descending (a missing [modifiedAt] counts as 0, as in
    [(s.modifiedAt || 0)]); for every value of that key the sessions having
    it keep their aggregation order (the sort is stable). *)
Theorem getAllSessions_sorted_stable (env : Env) :
  Permutation (getAllSessions env) (aggregated env) /\
  StronglySorted (fun a b => mkey b <= mkey a) (getAllSessions env) /\
  (forall k, filter (fun s => mkey s =? k) (getAllSessions env) =
             filter (fun s => mkey s =? k) (aggregated env)).
Proof.
  unfold getAllSessions; fold (aggregated env).
  split; [apply sort_sessions_perm|split].
  - apply sort_sessions_sorted.
  - intro k; apply sort_sessions_stable.
Qed.

(** ** Search *)

(** C4: on sessions of the declared types (string titles and contents),
    [searchSessions] returns, in input order, exactly the sessions whose
    lower-cased title contains the lower-cased query or having a message
    whose lower-cased content contains it, each paired with its matching
    messages in message order (empty when only the title matched). *)
Theorem searchSessions_spec (sessions : list ChatSession) (query : string) :
  Forall (fun s => well_typed s = true) sessions ->
  searchSessions sessions query =
  Ok (map (fun s => (s, filter (message_matches query) (messages s)))
          (filter (session_matches query) sessions)).
Proof.
  intro H. unfold searchSessions. rewrite (search_loop_spec sessions query [] H).
  reflexivity.
Qed.

Lemma searchSessions_spec_witness :
  searchSessions sample_sessions "binary search" =
  Ok [(nth 0 sample_sessions (sample_session "" "" []), []);
      (nth 1 sample_sessions (sample_session "" "" []),
       [msg RUser "explain BINARY SEARCH"; msg RUser "and binary search trees?"])].
Proof.
  rewrite (searchSessions_spec sample_sessions "binary search")
    by (repeat constructor).
  vm_compute. reflexivity.
Defined.

(** C10: for the empty query, [searchSessions] returns every session of the
    declared types, in input order, each with its whole message list. *)
Theorem searchSessions_empty_query (sessions : list ChatSession) :
  Forall (fun s => well_typed s = true) sessions ->
  searchSessions sessions "" = Ok (map (fun s => (s, messages s)) sessions).
Proof.
  intro H. unfold searchSessions. rewrite (search_loop_spec sessions "" [] H). simpl.
  f_equal. induction H as [|s r Hs _ IH]; simpl; [reflexivity|].
  unfold well_typed in Hs. apply andb_prop in Hs as [Ht Hm].
  assert (Hs : session_matches "" s = true).
  { unfold session_matches, folded_contains.
    destruct (title s); try discriminate. simpl. rewrite includes_empty. reflexivity. }
  assert (Hf : filter (message_matches "") (messages s) = messages s).
  { clear - Hm. induction (messages s) as [|m ms IHm]; simpl in *; [reflexivity|].
    apply andb_prop in Hm as [Hm1 Hm2].
    unfold message_matches at 1, folded_contains at 1.
    destruct (content m); try discriminate.
    simpl. rewrite includes_empty, IHm by exact Hm2. reflexivity. }
  rewrite Hs. simpl. rewrite Hf, IH. reflexivity.
Qed.

Lemma searchSessions_empty_query_witness :
  searchSessions sample_sessions "" =
  Ok (map (fun s => (s, messages s)) sample_sessions).
Proof.
  apply searchSessions_empty_query. repeat constructor.
Defined.

(** ** Content extraction *)











(** ** Message parsing *)

(** C6: [parseMessage] never returns a message whose role is unknown and
    whose content is empty (falsy): such a record yields no message. *)
Theorem parseMessage_no_unknown_empty (d : jsval) (m : ChatMessage) :
  parseMessage d = Ok (Some m) -> ~ (role m = RUnknown /\ truthy (content m) = false).
Proof.
  intros H [Hr Hc]. destruct (parseMessage_kept d m H) as [Hk|Hk].
  - rewrite Hr in Hk; discriminate.
  - rewrite Hc in Hk; discriminate.
Qed.

Lemma parseMessage_no_unknown_empty_witness :
  parseMessage (user_record "hello") =
    Ok (Some (mkMessage RUser (JStr "hello") JUndef JUndef JUndef
                        (Some (user_record "hello")))) /\
  ~ (RUser = RUnknown /\ truthy (JStr "hello") = false).
Proof.
  split; [reflexivity|].
  exact (parseMessage_no_unknown_empty (user_record "hello") _ eq_refl).
Defined.

(** C9: every message of a list produced by [parseMessages] has non-empty
    (truthy) content, and so has every message of every session returned by
    [getAllSessions], from files and from the database alike. *)
Theorem extracted_messages_have_content :
  (forall d ms, parseMessages d = Ok ms ->
     Forall (fun m => truthy (content m) = true) ms) /\
  (forall env, Forall (fun s => Forall (fun m => truthy (content m) = true) (messages s))
                      (getAllSessions env)).
Proof.
  assert (Hp : forall d ms, parseMessages d = Ok ms ->
                 Forall (fun m => truthy (content m) = true) ms).
  { intros d ms H. eapply Forall_impl; [|exact (parseMessages_ok d ms H)].
    intros m [Hm _]; exact Hm. }
  split; [exact Hp|].
  intro env. apply Forall_forall. intros s Hs.
  destruct (getAllSessions_in env s Hs) as [Hc _].
  pose proof (candidates_from_extraction env (discoverWorkspaces env) 0) as Hf.
  rewrite Forall_forall in Hf. destruct (Hf s Hc) as [d Hd]. eapply Hp; eauto.
Qed.

Lemma extracted_messages_have_content_witness :
  Forall (fun m => truthy (content m) = true)
    [mkMessage RUser (JStr "fix bug") JUndef JUndef JUndef None;
     mkMessage RAssistant (JStr "done") JUndef JUndef JUndef None].
Proof.
  exact (proj1 extracted_messages_have_content
           (JObj [("requests", JArr [JObj [("request", JStr "fix bug");
                                           ("response", JStr "done")]])]) _ eq_refl).
Defined.

(** ** Database extraction *)

(** C7: the database extractor always returns a session list and never
    throws; when the SQLite driver is missing, the database cannot be opened
    or cannot be queried it returns the empty list; a row whose value does not
    decode is skipped, and a row whose processing throws keeps the scan going
    with the sessions it pushed. *)
Theorem extractSessionsFromSqlite_soft_fail (env : Env) (ws : WorkspaceInfo) (t : nat) :
  let dbPath := path_join (storagePath ws) "state.vscdb" in
  (exists ss t', extractSessionsFromSqlite env ws t = (Ok ss, t')) /\
  ((sqlite_driver env = false \/ open_db env dbPath = None \/
    exists h, open_db env dbPath = Some h /\ item_table h = None) ->
   extractSessionsFromSqlite env ws t = (Ok [], t)) /\
  (forall k rows st, rows_loop env ws ((k, None) :: rows) st = rows_loop env ws rows st) /\
  (forall k d rows st, rows_loop env ws ((k, Some d) :: rows) st =
                       rows_loop env ws rows (snd (processDbEntry env d ws st))).
Proof.
  intro dbPath. split; [|split; [|split]].
  - unfold extractSessionsFromSqlite. destruct (negb _); [eauto|].
    destruct (sqlite_body _ _ _ _) as [r [t' ss]]; eauto.
  - intro H. unfold extractSessionsFromSqlite. fold dbPath.
    destruct (negb (exists_path env dbPath)); [reflexivity|].
    unfold sqlite_body, bindST, raise, ret.
    destruct H as [H|[H|[h [H1 H2]]]].
    + rewrite H; reflexivity.
    + destruct (sqlite_driver env); rewrite ?H; reflexivity.
    + destruct (sqlite_driver env); rewrite ?H1, ?H2; reflexivity.
  - intros k rows [t0 ss]. reflexivity.
  - intros k d rows st. simpl. unfold bindST, catch_all.
    destruct (processDbEntry env d ws st); reflexivity.
Qed.

Lemma extractSessionsFromSqlite_soft_fail_witness :
  extractSessionsFromSqlite env_no_driver ws_db 5 = (Ok [], 5%nat).
Proof.
  apply (proj1 (proj2 (extractSessionsFromSqlite_soft_fail env_no_driver ws_db 5))).
  left. reflexivity.
Defined.

(** C8 (counterexample): a session from the database of [env_db] has a
    message that carries [rawData]. *)
Lemma db_message_rawData_counterexample :
  exists s m,
    fst (extractSessionsFromSqlite env_db ws_db 0) = Ok [s] /\
    source s = SrcSqlite /\ In m (messages s) /\ rawData m = Some (user_record "hi").
Proof.
  vm_compute. do 2 eexists. split; [reflexivity|]. split; [reflexivity|].
  split; [left; reflexivity|reflexivity].
Qed.

(** C8 (amended): the messages made by message-list extraction, the message
    lists of file and database sessions alike, carry as [rawData] the record
    they were parsed from exactly when they come from a flat message record;
    the synthetic user/assistant messages of request/response pairs carry
    none. *)
Theorem parseMessages_rawData (d : jsval) (ms : list ChatMessage) :
  parseMessages d = Ok ms ->
  Forall (fun m => match rawData m with
                   | Some r => parseMessage r = Ok (Some m)
                   | None => role m = RUser \/ role m = RAssistant
                   end) ms /\
  (forall r m, parseMessage r = Ok (Some m) -> rawData m = Some r) /\
  (forall env, Forall from_extraction (candidates env (discoverWorkspaces env) 0)).
Proof.
  intro H. split; [|split].
  - eapply Forall_impl; [|exact (parseMessages_ok d ms H)]. intros m [_ Hm]; exact Hm.
  - apply parseMessage_rawData.
  - intro env. apply candidates_from_extraction.
Qed.

Lemma parseMessages_rawData_witness :
  Forall (fun m => match rawData m with
                   | Some r => parseMessage r = Ok (Some m)
                   | None => role m = RUser \/ role m = RAssistant
                   end)
    [mkMessage RUser (JStr "hi") JUndef JUndef JUndef (Some (user_record "hi"))].
Proof.
  exact (proj1 (parseMessages_rawData (JObj [("messages", JArr [user_record "hi"])]) _
                  eq_refl)).
Defined.

(** * Further properties *)

(** ** HTML escaping *)

(** X1: [escapeHtml] leaves no [<], no [>] and no double quote in its
    result: each one is replaced by its entity. *)
Theorem escapeHtml_no_markup (text : string) :
  ~ In "<"%char (list_ascii_of_string (escapeHtml text)) /\
  ~ In ">"%char (list_ascii_of_string (escapeHtml text)) /\
  ~ In dquote (list_ascii_of_string (escapeHtml text)).
Proof.
  rewrite escapeHtml_esc_all.
  assert (H : forall x, In x (list_ascii_of_string (esc_all text)) ->
                x <> "<"%char /\ x <> ">"%char /\ x <> dquote).
  { induction text as [|c r IH]; simpl; [contradiction|].
    rewrite list_ascii_app. intros x Hx.
    apply in_app_or in Hx as [Hx|Hx]; [exact (esc1_chars c x Hx)|exact (IH x Hx)]. }
  repeat split; intro Hin; apply H in Hin; tauto.
Qed.

(** X2: [escapeHtml] is injective: two texts with the same escaped form
    are equal, so the escaped text determines the original. *)
Theorem escapeHtml_injective (t1 t2 : string) :
  escapeHtml t1 = escapeHtml t2 -> t1 = t2.
Proof.
  rewrite !escapeHtml_esc_all. revert t2.
  induction t1 as [|c1 r1 IH]; intros [|c2 r2]; simpl; intro H; auto.
  - destruct (esc1 c2) eqn:E; [apply esc1_nonempty in E; contradiction|discriminate].
  - destruct (esc1 c1) eqn:E; [apply esc1_nonempty in E; contradiction|discriminate].
  - apply esc1_prefix in H as [-> H]. f_equal. exact (IH r2 H).
Qed.

Lemma escapeHtml_injective_witness : escapeHtml "a<b" = escapeHtml "a<b" /\ "a<b" = "a<b".
Proof. split; [reflexivity|]. apply (escapeHtml_injective "a<b" "a<b"). reflexivity. Defined.

(** X3: a text with no [&], [<], [>] or double quote is returned unchanged
    by [escapeHtml]. *)
Theorem escapeHtml_plain (text : string) :
  (forall c, In c (list_ascii_of_string text) ->
     c <> "&"%char /\ c <> "<"%char /\ c <> ">"%char /\ c <> dquote) ->
  escapeHtml text = text.
Proof.
  rewrite escapeHtml_esc_all. induction text as [|c r IH]; simpl; intro H; [reflexivity|].
  destruct (H c (or_introl eq_refl)) as (H1 & H2 & H3 & H4).
  rewrite esc1_plain by assumption. simpl. rewrite IH; [reflexivity|].
  intros x Hx; apply H; right; exact Hx.
Qed.

Lemma escapeHtml_plain_witness : escapeHtml "Hi you" = "Hi you".
Proof.
  apply escapeHtml_plain. intros c Hc. simpl in Hc.
  repeat destruct Hc as [<-|Hc]; try contradiction; repeat split; discriminate.
Defined.

(** ** File names *)

(** X4: [sanitizeFilename] never returns the empty string, and its result
    has no character of the first replaced class and no whitespace. *)
Theorem sanitizeFilename_charset (name : string) (maxLength : Z) :
  sanitizeFilename name maxLength <> "" /\
  forall c, In c (list_ascii_of_string (sanitizeFilename name maxLength)) ->
    is_forbidden c = false /\ is_ws c = false.
Proof.
  split; [|apply sanitizeFilename_clean].
  rewrite sanitizeFilename_s6. destruct (sanitize_s6 name maxLength); discriminate.
Qed.

(** X5: the result of [sanitizeFilename] neither starts nor ends with an
    underscore and never has two underscores in a row. *)
Theorem sanitizeFilename_underscores (name : string) (maxLength : Z) :
  let l := list_ascii_of_string (sanitizeFilename name maxLength) in
  hd_error l <> Some "_"%char /\ hd_error (rev l) <> Some "_"%char /\
  forall a b, l <> (a ++ "_"%char :: "_"%char :: b)%list.
Proof.
  intro l. destruct (sanitizeFilename_clean name maxLength) as (_ & Huu & Hhd & Htl).
  split; [exact Hhd|split; [exact Htl|]]. intros a b. exact (uu_free_no_pair _ a b Huu).
Qed.

(** X6: the result of [sanitizeFilename] is at most [maxLength] characters
    long, unless it is the fallback [untitled]. *)
Theorem sanitizeFilename_length (name : string) (maxLength : Z) :
  sanitizeFilename name maxLength = "untitled" \/
  Z.of_nat (String.length (sanitizeFilename name maxLength)) <= maxLength.
Proof.
  rewrite sanitizeFilename_s6.
  destruct (sanitize_s6_length name maxLength) as [E|H].
  - left. rewrite E. reflexivity.
  - destruct (sanitize_s6 name maxLength) as [|c l]; [left; reflexivity|right].
    rewrite length_string_of_list_ascii. exact H.
Qed.

(** X7: with [maxLength] at least 8 (the default is 50), sanitising a
    sanitised name changes nothing. *)
Theorem sanitizeFilename_idempotent (name : string) (maxLength : Z) :
  8 <= maxLength ->
  sanitizeFilename (sanitizeFilename name maxLength) maxLength =
  sanitizeFilename name maxLength.
Proof.
  intro Hm. rewrite (sanitizeFilename_s6 name maxLength).
  pose proof (sanitize_s6_clean name maxLength) as Hc.
  pose proof (sanitize_s6_length name maxLength) as Hl.
  destruct (sanitize_s6 name maxLength) as [|c l].
  - change "untitled" with (string_of_list_ascii (list_ascii_of_string "untitled")).
    apply sanitize_clean_id; [exact untitled_clean|discriminate|simpl; lia].
  - apply sanitize_clean_id; [exact Hc|discriminate|].
    destruct Hl as [Hl|Hl]; [discriminate|exact Hl].
Qed.

Lemma sanitizeFilename_idempotent_witness :
  8 <= 50 /\
  sanitizeFilename (sanitizeFilename " a: b_ " 50) 50 = sanitizeFilename " a: b_ " 50.
Proof. split; [lia|]. apply sanitizeFilename_idempotent. lia. Defined.

(** ** Search *)

(** X8: [searchSessions] throws a [TypeError] as soon as it reaches a
    session whose title or one of whose message contents is not a string,
    whatever the query and the sessions after it. *)
Theorem searchSessions_throws (ok : list ChatSession) (s : ChatSession)
  (rest : list ChatSession) (query : string) :
  Forall (fun s => well_typed s = true) ok -> well_typed s = false ->
  searchSessions (ok ++ s :: rest) query = Throw TypeError.
Proof. intros Hok Hs. unfold searchSessions. apply search_loop_throw; assumption. Qed.

Lemma searchSessions_throws_witness :
  searchSessions (sample_sessions ++
                  [mkSession (JStr "db_1") (JNum 5) [] "w" "w" None JUndef None
                             JUndef JUndef SrcSqlite None]) "x" = Throw TypeError.
Proof.
  rewrite <- (app_nil_r [_]).
  apply searchSessions_throws; [repeat constructor|reflexivity].
Defined.

(** ** Sorting *)

(** X9: the sort of [getAllSessions] returns a list already ordered by
    [modifiedAt || 0], most recent first, unchanged. *)
Theorem sort_sessions_sorted_id (l : list ChatSession) :
  Sorted desc l -> sort_sessions l = l.
Proof.
  induction l as [|x r IH]; intro H; simpl; [reflexivity|].
  inversion H as [|? ? Hr Hh]; subst. rewrite (IH Hr).
  destruct r as [|y r']; simpl; [reflexivity|].
  inversion Hh as [|? ? Hxy]; subst. unfold desc in Hxy.
  destruct (mkey y <=? mkey x) eqn:E; [reflexivity|apply Z.leb_gt in E; lia].
Qed.

Lemma sort_sessions_sorted_id_witness : sort_sessions sample_sessions = sample_sessions.
Proof.
  apply sort_sessions_sorted_id. unfold desc.
  repeat (apply Sorted_cons || apply Sorted_nil); repeat (apply HdRel_cons || apply HdRel_nil);
    apply Z.leb_le; vm_compute; reflexivity.
Defined.

(** ** Workspace discovery *)

(** X10: [getWorkspaceStoragePaths] returns at most one entry per variant,
    so at most 4, with pairwise distinct variant names, each the name of a
    variant paired with that variant's path for the platform, a path that
    exists. *)
Theorem getWorkspaceStoragePaths_spec (env : Env) :
  (length (getWorkspaceStoragePaths env) <= 4)%nat /\
  NoDup (map fst (getWorkspaceStoragePaths env)) /\
  Forall (fun np => exists cfg, In cfg VSCODE_VARIANTS /\ fst np = vname cfg /\
                                snd np = variant_path env cfg /\
                                exists_path env (snd np) = true)
         (getWorkspaceStoragePaths env).
Proof.
  unfold getWorkspaceStoragePaths.
  rewrite (flat_map_opt (fun cfg => exists_path env (variant_path env cfg))
                        (fun cfg => (vname cfg, variant_path env cfg))).
  split; [|split].
  - rewrite length_map. apply length_filter_le.
  - rewrite map_map. apply (nodup_map_filter vname).
    repeat constructor; simpl; intuition discriminate.
  - apply Forall_forall. intros np Hnp. apply in_map_iff in Hnp as [cfg [<- Hc]].
    apply filter_In in Hc as [Hc He]. exists cfg. repeat split; assumption.
Qed.

(** X11: every workspace [discoverWorkspaces] returns is a directory entry
    of a storage root from [getWorkspaceStoragePaths], named by its
    [workspaceId] and found at [root/workspaceId]. *)
Theorem discoverWorkspaces_location (env : Env) (ws : WorkspaceInfo) :
  In ws (discoverWorkspaces env) ->
  exists vn sp ents, In (vn, sp) (getWorkspaceStoragePaths env) /\
    readdir_entries env sp = Some ents /\ In (workspaceId ws, true) ents /\
    storagePath ws = path_join sp (workspaceId ws).
Proof.
  intro H. destruct (in_discoverWorkspaces env ws H) as (vn & sp & ents & H1 & H2 & H3 & H4).
  exists vn, sp, ents. repeat split; try assumption.
  unfold workspace_of in H4. destruct (_ || _); [|contradiction].
  destruct H4 as [<-|[]]. reflexivity.
Qed.

Lemma discoverWorkspaces_location_witness :
  exists vn sp ents, In (vn, sp) (getWorkspaceStoragePaths env_project) /\
    readdir_entries env_project sp = Some ents /\
    In (workspaceId (nth 0 (discoverWorkspaces env_project) no_ws), true) ents /\
    storagePath (nth 0 (discoverWorkspaces env_project) no_ws) =
    path_join sp (workspaceId (nth 0 (discoverWorkspaces env_project) no_ws)).
Proof. apply discoverWorkspaces_location. apply nth_In. vm_compute. lia. Defined.

(** X12: a discovered workspace has a [chatSessions] directory or a
    [state.vscdb] database, and [hasStateDb] is whether the database exists. *)
Theorem discoverWorkspaces_sources (env : Env) (ws : WorkspaceInfo) :
  In ws (discoverWorkspaces env) ->
  hasStateDb ws = exists_path env (path_join (storagePath ws) "state.vscdb") /\
  (exists_path env (path_join (storagePath ws) "chatSessions") = true \/
   hasStateDb ws = true).
Proof.
  intro H. destruct (in_discoverWorkspaces env ws H) as (vn & sp & ents & _ & _ & _ & H4).
  unfold workspace_of in H4. destruct (_ || _) eqn:Hs; [|contradiction].
  destruct H4 as [Hw|[]]. rewrite <- Hw. simpl. split; [reflexivity|].
  apply orb_prop in Hs. exact Hs.
Qed.

Lemma discoverWorkspaces_sources_witness :
  hasStateDb (nth 0 (discoverWorkspaces env_project) no_ws) =
  exists_path env_project
    (path_join (storagePath (nth 0 (discoverWorkspaces env_project) no_ws)) "state.vscdb") /\
  (exists_path env_project
     (path_join (storagePath (nth 0 (discoverWorkspaces env_project) no_ws)) "chatSessions")
   = true \/ hasStateDb (nth 0 (discoverWorkspaces env_project) no_ws) = true).
Proof. apply discoverWorkspaces_sources. apply nth_In. vm_compute. lia. Defined.

(** X13: every chat session file of a discovered workspace is
    [storagePath/chatSessions/name] for a name ending in [.json] listed by
    that directory, which exists. *)
Theorem discoverWorkspaces_files (env : Env) (ws : WorkspaceInfo) (f : string) :
  In ws (discoverWorkspaces env) -> In f (chatSessionFiles ws) ->
  exists_path env (path_join (storagePath ws) "chatSessions") = true /\
  exists name names,
    readdir_names env (path_join (storagePath ws) "chatSessions") = Some names /\
    In name names /\ endsWith name ".json" = true /\
    f = path_join (path_join (storagePath ws) "chatSessions") name.
Proof.
  intros H Hf. destruct (in_discoverWorkspaces env ws H) as (vn & sp & ents & _ & _ & _ & H4).
  unfold workspace_of in H4. destruct (_ || _); [|contradiction].
  destruct H4 as [Hw|[]]. rewrite <- Hw in Hf |- *. simpl in *.
  destruct (exists_path env (path_join (path_join sp (workspaceId ws)) "chatSessions"));
    [|contradiction].
  split; [reflexivity|].
  destruct (readdir_names env _) as [names|]; [|contradiction].
  apply in_map_iff in Hf as [name [<- Hn]]. apply filter_In in Hn as [Hn He].
  exists name, names. repeat split; assumption.
Qed.

Lemma discoverWorkspaces_files_witness :
  let ws := nth 1 (discoverWorkspaces env_two_files) no_ws in
  exists_path env_two_files (path_join (storagePath ws) "chatSessions") = true /\
  exists name names,
    readdir_names env_two_files (path_join (storagePath ws) "chatSessions") = Some names /\
    In name names /\ endsWith name ".json" = true /\
    nth 0 (chatSessionFiles ws) "" = path_join (path_join (storagePath ws) "chatSessions") name.
Proof.
  intro ws. apply discoverWorkspaces_files.
  - apply nth_In. vm_compute. lia.
  - apply nth_In. vm_compute. lia.
Defined.

(** X14: the [projectName] of a discovered workspace is the base name of
    its [projectPath], and both are absent together. *)
Theorem discoverWorkspaces_projectName (env : Env) (ws : WorkspaceInfo) :
  In ws (discoverWorkspaces env) ->
  projectName ws = option_map basename (ws_projectPath ws).
Proof.
  intro H. destruct (in_discoverWorkspaces env ws H) as (vn & sp & ents & _ & _ & _ & H4).
  unfold workspace_of in H4. destruct (_ || _); [|contradiction].
  destruct H4 as [Hw|[]]. rewrite <- Hw. simpl.
  destruct (project_of env _) as [[a b]|] eqn:Hp; [|reflexivity].
  simpl. rewrite (project_of_basename _ _ _ _ Hp). reflexivity.
Qed.

Lemma discoverWorkspaces_projectName_witness :
  projectName (nth 0 (discoverWorkspaces env_project) no_ws) = Some "my proj" /\
  projectName (nth 0 (discoverWorkspaces env_project) no_ws) =
  option_map basename (ws_projectPath (nth 0 (discoverWorkspaces env_project) no_ws)).
Proof.
  split; [vm_compute; reflexivity|].
  apply (discoverWorkspaces_projectName env_project). apply nth_In. vm_compute. lia.
Defined.

(** ** File sessions *)

(** X15: a session read from a transcript file takes its id from the file
    name without [.json], its [modifiedAt] from the file's mtime, records
    the file path and the JSON source, and the id, name and project path of
    its workspace. *)
Theorem parseSessionFromFile_fields (env : Env) (fp : string) (ws : WorkspaceInfo)
  (s : ChatSession) :
  parseSessionFromFile env fp ws = Some s ->
  sessionId s = JStr (basename_ext fp ".json") /\ source s = SrcJson /\
  filePath s = Some fp /\ modifiedAt s = stat_mtime env fp /\
  s_workspaceId s = workspaceId ws /\ workspaceName s = workspace_name ws /\
  projectPath s = ws_projectPath ws.
Proof.
  intro H. destruct (parseSessionFromFile_inv env fp ws s H) as (mt & Hm & H1 & H2 & H3 & H4 & H5 & H6 & H7).
  rewrite Hm. repeat split; assumption.
Qed.

Lemma parseSessionFromFile_fields_witness :
  let fp := path_join (path_join (path_join storage_root "w2") "chatSessions") "a.json" in
  let ws := nth 1 (discoverWorkspaces env_two_files) no_ws in
  exists s, parseSessionFromFile env_two_files fp ws = Some s /\
  (sessionId s = JStr (basename_ext fp ".json") /\ source s = SrcJson /\
   filePath s = Some fp /\ modifiedAt s = stat_mtime env_two_files fp /\
   s_workspaceId s = workspaceId ws /\ workspaceName s = workspace_name ws /\
   projectPath s = ws_projectPath ws).
Proof.
  intros fp ws. eexists. split; [vm_compute; reflexivity|].
  apply parseSessionFromFile_fields. vm_compute. reflexivity.
Defined.

(** X16: a transcript that cannot be read and parsed, or whose [stat]
    fails, gives no session. *)
Theorem parseSessionFromFile_io_failure (env : Env) (fp : string) (ws : WorkspaceInfo) :
  read_json env fp = None \/ stat_mtime env fp = None ->
  parseSessionFromFile env fp ws = None.
Proof.
  intros [H|H].
  - unfold parseSessionFromFile. rewrite H. reflexivity.
  - destruct (parseSessionFromFile env fp ws) as [s|] eqn:E; [|reflexivity].
    destruct (parseSessionFromFile_inv env fp ws s E) as (mt & Hm & _). congruence.
Qed.

Lemma parseSessionFromFile_io_failure_witness :
  parseSessionFromFile env_no_driver "/s/w/chatSessions/a.json" ws_db = None.
Proof. apply parseSessionFromFile_io_failure. left. reflexivity. Defined.

(** X17: a title generated from the first user message (when the stored
    title is falsy) is at most 63 characters long: 60 characters and the
    ellipsis. *)
Theorem title_from_messages_length (t0 : jsval) (ms : list ChatMessage) (t : string) :
  truthy t0 = false -> title_from_messages t0 ms = Ok (JStr t) ->
  (String.length t <= 63)%nat.
Proof.
  intros H0 H. unfold title_from_messages in H. rewrite H0 in H.
  destruct (0 <? length ms)%nat.
  - destruct (first_user ms) as [m|].
    + destruct (content m) as [| | | |c| |]; try discriminate.
      inversion H; subst.
      pose proof (substring_0_length 60 c).
      destruct (60 <? String.length c)%nat; [rewrite str_length_app; simpl|]; lia.
    + inversion H; subst. rewrite (falsy_string_empty t H0). simpl. lia.
  - inversion H; subst. rewrite (falsy_string_empty t H0). simpl. lia.
Qed.

Lemma title_from_messages_length_witness :
  (String.length "how do I write it" <= 63)%nat.
Proof.
  apply (title_from_messages_length (JStr "") (messages (nth 0 sample_sessions
           (sample_session "" "" [])))); reflexivity.
Defined.

(** ** Database sessions *)

(** X18: every session [extractSessionsFromSqlite] returns is marked as
    coming from SQLite, has no file path, carries the id, name and project
    path of its workspace, and has a [modifiedAt] read from the clock. *)
Theorem extractSessionsFromSqlite_fields (env : Env) (ws : WorkspaceInfo) (t : nat) :
  match extractSessionsFromSqlite env ws t with
  | (Ok ss, _) =>
      Forall (fun s => source s = SrcSqlite /\ filePath s = None /\
                       s_workspaceId s = workspaceId ws /\
                       workspaceName s = workspace_name ws /\
                       projectPath s = ws_projectPath ws /\
                       exists k, modifiedAt s = Some (clock env k)) ss
  | (Throw _, _) => False
  end.
Proof.
  unfold extractSessionsFromSqlite.
  destruct (negb _); [constructor|].
  pose proof (sqlite_body_fields env ws (path_join (storagePath ws) "state.vscdb") t []
                (Forall_nil _)) as Hb.
  destruct (sqlite_body _ _ _ (t, [])) as [r [t' ss]]. exact Hb.
Qed.

(** ** Message lists *)

(** X19: a value other than [undefined] and [null] none of whose message
    container keys holds an array yields no message. *)
Theorem parseMessages_no_container (data : jsval) :
  data <> JUndef -> data <> JNull ->
  (forall k, In k messageContainers -> forall items, get data k <> Ok (JArr items)) ->
  parseMessages data = Ok [].
Proof. intros H1 H2 H. apply scan_containers_none; assumption. Qed.

Lemma parseMessages_no_container_witness :
  parseMessages (JObj [("title", JStr "t"); ("messages", JStr "none")]) = Ok [].
Proof.
  apply parseMessages_no_container; [discriminate|discriminate|].
  intros k Hk items. simpl in Hk.
  repeat destruct Hk as [<-|Hk]; try contradiction; discriminate.
Defined.

(** ** Sidebar tree *)

(** X20: with sessions to show, the grouped root of the sidebar has one
    workspace item per distinct [workspaceName] among the first
    [maxSessionsInView] sessions, each holding exactly the sessions of that
    workspace in their order, never an empty one. *)
Theorem getChildren_groups (sessions : list ChatSession) (maxSessions : Z) :
  sessions <> [] ->
  exists G,
    getChildren sessions true maxSessions None =
      map (fun g => WorkspaceTreeItem (fst g) (snd g)) G /\
    NoDup (map fst G) /\
    (forall k ss, In (k, ss) G ->
       ss <> [] /\
       ss = filter (fun s => String.eqb (workspaceName s) k) (slice0 maxSessions sessions)) /\
    (forall s, In s (slice0 maxSessions sessions) -> In (workspaceName s) (map fst G)).
Proof.
  intro Hne. set (sl := slice0 maxSessions sessions).
  exists (sort_groups (group_by_workspace sl)).
  assert (HP : Permutation (map fst (sort_groups (group_by_workspace sl))) (keys_of sl)).
  { rewrite (Permutation_map fst (sort_groups_perm _)).
    rewrite group_by_workspace_eq, map_map. simpl. rewrite map_id. reflexivity. }
  split; [destruct sessions; [contradiction|reflexivity]|].
  split; [exact (Permutation_NoDup (Permutation_sym HP) (keys_of_nodup sl))|].
  split.
  - intros k ss Hin.
    apply (Permutation_in _ (sort_groups_perm _)) in Hin.
    rewrite group_by_workspace_eq in Hin.
    apply in_map_iff in Hin as [k' [Ek Hk]]. inversion Ek; subst k' ss.
    split; [|reflexivity].
    apply keys_of_in in Hk as [s [Hs Hn]].
    intro E. assert (Hf : In s (filter (in_ws k) sl)) by (apply filter_In; split;
      [exact Hs|unfold in_ws; rewrite Hn; apply String.eqb_refl]).
    rewrite E in Hf. contradiction.
  - intros s Hs. apply (Permutation_in _ (Permutation_sym HP)).
    apply keys_of_in. exists s. split; [exact Hs|reflexivity].
Qed.

Lemma getChildren_groups_witness :
  exists G,
    getChildren sample_sessions true 100 None =
      map (fun g => WorkspaceTreeItem (fst g) (snd g)) G /\
    NoDup (map fst G) /\
    (forall k ss, In (k, ss) G ->
       ss <> [] /\
       ss = filter (fun s => String.eqb (workspaceName s) k) (slice0 100 sample_sessions)) /\
    (forall s, In s (slice0 100 sample_sessions) -> In (workspaceName s) (map fst G)).
Proof. apply getChildren_groups. discriminate. Defined.

(** X21: the workspace items of the grouped root come ordered by their
    most recent session ([modifiedAt || 0]), most recent first. *)
Theorem getChildren_groups_sorted (sessions : list ChatSession) (maxSessions : Z) :
  StronglySorted
    (fun a b => match a, b with
                | WorkspaceTreeItem _ sa, WorkspaceTreeItem _ sb =>
                    latest_le (latest sb) (latest sa) = true
                | _, _ => False
                end)
    (getChildren sessions true maxSessions None).
Proof.
  destruct sessions as [|s0 r]; [constructor|].
  unfold getChildren.
  apply (StronglySorted_map gdesc); [intros a b H; exact H|apply sort_groups_sorted].
Qed.

(** X22: opening every workspace item of the grouped root gives back the
    sessions of the flat root, up to order. *)
Theorem getChildren_regroup (sessions : list ChatSession) (maxSessions : Z) :
  Permutation
    (concat (map (fun it => getChildren sessions true maxSessions (Some it))
                 (getChildren sessions true maxSessions None)))
    (getChildren sessions false maxSessions None).
Proof.
  destruct sessions as [|s0 r]; [reflexivity|].
  unfold getChildren at 2 3.
  rewrite map_child_concat. apply Permutation_map.
  rewrite <- flat_map_concat_map, (sort_groups_perm (group_by_workspace _)),
    flat_map_concat_map.
  apply group_by_workspace_perm.
Qed.
